(** * NetworkNote: the contact-capture flow, its extraction endpoint,
      the local store and the vCard export

    A shallow embedding of [src/app/api/process/route.ts], which holds both
    the server handler [POST] and the client component [NetworkNote].

    Conventions of the embedding.
    - A JS string is a [string]: a sequence of code units, here the code
      units below 256.
    - A value whose static type is [any] (what [JSON.parse], [request.json()]
      or [response.json()] return, and the fields copied from it) is a
      [Js.value], with JS truthiness, property read and string conversion
      written out.
    - A [throw] is the left injection of [Js.result]; [try]/[catch] is a
      [match] on it.
    - React state is an explicit record, a setter is a record update, and an
      [await] splits a handler in the part before and the part after it. *)

From Stdlib Require Import String Ascii List ZArith Bool Lia.
Import ListNotations.

Set Warnings "-register-all".

Local Open Scope list_scope.
Local Open Scope string_scope.

(** ** Strings *)

Module Str.

(** [s === ''] *)
Definition is_empty (s : string) : bool :=
  match s with
  | EmptyString => true
  | String _ _ => false
  end.

(** White space and line terminators of ECMAScript among the code units
    below 256: TAB, LF, VT, FF, CR, SP and NBSP. *)
Definition is_space (c : ascii) : bool :=
  let n := nat_of_ascii c in
  (Nat.eqb n 9 || Nat.eqb n 10 || Nat.eqb n 11 || Nat.eqb n 12
   || Nat.eqb n 13 || Nat.eqb n 32 || Nat.eqb n 160)%bool.

Fixpoint trimStart (s : string) : string :=
  match s with
  | EmptyString => EmptyString
  | String c r => if is_space c then trimStart r else s
  end.

Fixpoint trimEnd (s : string) : string :=
  match s with
  | EmptyString => EmptyString
  | String c r =>
      let r' := trimEnd r in
      if (is_space c && is_empty r')%bool then EmptyString else String c r'
  end.

(** [String.prototype.trim] *)
Definition trim (s : string) : string := trimEnd (trimStart s).

Definition nl : string := String "010" EmptyString.

(** The double quote, which a string literal of this file cannot hold. *)
Definition dq : string := String "034" EmptyString.

Definition quoted (s : string) : string := dq ++ s ++ dq.

(** The text of a template literal, one element per source line. *)
Definition unlines (ls : list string) : string := String.concat nl ls.

Fixpoint drop (n : nat) (s : string) : string :=
  match n, s with
  | O, _ => s
  | S _, EmptyString => EmptyString
  | S k, String _ r => drop k r
  end.

Definition starts_with_nl (s : string) : bool :=
  match s with
  | String c _ => Ascii.eqb c "010"
  | EmptyString => false
  end.

(** [s.replace(/<pat>\n?/g, '')] for a literal, non-empty [pat]: scanning
    from the left, every occurrence of [pat], together with one line feed
    that follows it, is removed; the scan resumes after the removed text.
    [skip] counts the code units of the current match still to remove. *)
Fixpoint remove_all_from (pat : string) (skip : nat) (s : string) : string :=
  match s with
  | EmptyString => EmptyString
  | String c r =>
      match skip with
      | S k => remove_all_from pat k r
      | O =>
          if String.prefix pat s then
            let tail := drop (String.length pat) s in
            remove_all_from pat
              (Nat.pred (String.length pat)
               + (if starts_with_nl tail then 1 else 0))%nat r
          else String c (remove_all_from pat O r)
      end
  end.

Definition remove_all (pat : string) (s : string) : string :=
  remove_all_from pat O s.

(** [s.split('\n')]: the lines of a text. *)
Fixpoint split_lines_from (cur : string) (s : string) : list string :=
  match s with
  | EmptyString => [cur]
  | String c r =>
      if Ascii.eqb c "010" then cur :: split_lines_from EmptyString r
      else split_lines_from (cur ++ String c EmptyString) r
  end.

Definition split_lines (s : string) : list string :=
  split_lines_from EmptyString s.

(** [s.includes(t)] *)
Fixpoint includes (t : string) (s : string) : bool :=
  match s with
  | EmptyString => String.prefix t EmptyString
  | String _ r => (String.prefix t s || includes t r)%bool
  end.

(** No line feed occurs in [s]. *)
Fixpoint one_line (s : string) : bool :=
  match s with
  | EmptyString => true
  | String c r => (negb (Ascii.eqb c "010") && one_line r)%bool
  end.

End Str.

(** ** JavaScript values *)

Module Js.

(** A JS number, by the two observations this program makes of one: whether
    it is truthy (neither zero nor NaN) and its [ToString]. *)
Record number : Type := mkNumber {
  nonzero : bool;
  shown : string
}.

Inductive value : Type :=
| Undefined
| Null
| Bool (b : bool)
| Num (n : number)
| Str (s : string)
| Arr (items : list value)
| Obj (props : list (string * value)).

Inductive exn : Type :=
| TypeError (msg : string)
| SyntaxError (msg : string)
| Error (msg : string).

Definition result (A : Type) : Type := (exn + A)%type.

Definition ret {A : Type} (a : A) : result A := inr a.
Definition throw {A : Type} (e : exn) : result A := inl e.

Definition bind {A B : Type} (m : result A) (k : A -> result B) : result B :=
  match m with
  | inl e => inl e
  | inr a => k a
  end.

(** [ToBoolean] *)
Definition truthy (v : value) : bool :=
  match v with
  | Undefined | Null => false
  | Bool b => b
  | Num n => nonzero n
  | Str s => negb (Str.is_empty s)
  | Arr _ | Obj _ => true
  end.

(** [a || b] *)
Definition or (a b : value) : value := if truthy a then a else b.

(** The own property [k] of an object, [undefined] when there is none. *)
Fixpoint lookup (k : string) (props : list (string * value)) : value :=
  match props with
  | [] => Undefined
  | (k', v) :: rest => if String.eqb k k' then v else lookup k rest
  end.

Fixpoint has_own (k : string) (props : list (string * value)) : bool :=
  match props with
  | [] => false
  | (k', _) :: rest => (String.eqb k k' || has_own k rest)%bool
  end.

(** [v.k] for the property names this program reads (none of them is a
    property of the String, Number, Boolean, Array or Object prototypes):
    a [TypeError] on [undefined] and [null], the own property of an object,
    [undefined] on every other value. *)
Definition get (v : value) (k : string) : result value :=
  match v with
  | Undefined => throw (TypeError "Cannot read properties of undefined")
  | Null => throw (TypeError "Cannot read properties of null")
  | Obj props => ret (lookup k props)
  | Bool _ | Num _ | Str _ | Arr _ => ret Undefined
  end.

(** [ToString], as a template literal applies it. An array is joined with
    commas, [null] and [undefined] elements giving the empty string; a plain
    object gives [[object Object]] through [Object.prototype.toString],
    unless an own property shadows [toString] with a value that cannot be
    called, which is a [TypeError]. *)
Fixpoint toString (v : value) : result string :=
  match v with
  | Undefined => ret "undefined"
  | Null => ret "null"
  | Bool true => ret "true"
  | Bool false => ret "false"
  | Num n => ret (shown n)
  | Str s => ret s
  | Arr items =>
      let fix elems (l : list value) : result (list string) :=
        match l with
        | [] => ret []
        | x :: r =>
            bind (match x with
                  | Undefined | Null => ret EmptyString
                  | _ => toString x
                  end)
              (fun s => bind (elems r) (fun ss => ret (s :: ss)))
        end in
      bind (elems items) (fun ss => ret (String.concat "," ss))
  | Obj props =>
      if has_own "toString" props
      then throw (TypeError "Cannot convert object to primitive value")
      else ret "[object Object]"
  end.

End Js.

Notation "x <- m ;; k" := (Js.bind m (fun x => k))
  (at level 61, m at next level, right associativity).

(** ** Data model of the client *)

(** [interface FormData]: the draft of a new contact, seven strings. *)
Record FormData : Type := mkFormData {
  fd_name : string;
  fd_company : string;
  fd_role : string;
  fd_email : string;
  fd_phone : string;
  fd_location : string;
  fd_meetingContext : string
}.

(** The initial value of the [formData] state, which [resetForm] restores. *)
Definition emptyForm : FormData :=
  mkFormData EmptyString EmptyString EmptyString EmptyString EmptyString
    EmptyString EmptyString.

(** [interface Contact]. [id], [rawNotes] and [createdAt] always come from
    the clock and the transcript. The other fields are copied from the
    parsed response or from the draft: at run time they hold whatever JSON
    value the response holds, [Js.Undefined] standing for an absent field. *)
Record Contact : Type := mkContact {
  id : Z;
  name : Js.value;
  company : Js.value;
  role : Js.value;
  email : Js.value;
  phone : Js.value;
  location : Js.value;
  photo : Js.value;
  summary : Js.value;
  keyTopics : Js.value;
  actionItems : Js.value;
  followUpSuggestion : Js.value;
  rawNotes : string;
  meetingContext : Js.value;
  createdAt : string
}.

Inductive View : Type := ListV | NewV | DetailV.

(** The [useState] cells of [NetworkNote] that the creation flow, deletion
    and the store read or write. *)
Record State : Type := mkState {
  contacts : list Contact;
  currentContact : option Contact;
  transcript : string;
  photoDraft : option string;
  isProcessing : bool;
  view : View;
  formData : FormData
}.

(** [useState] initial values. *)
Definition initialState : State :=
  mkState [] None EmptyString None false ListV emptyForm.

Definition setContacts (f : list Contact -> list Contact) (st : State) : State :=
  mkState (f (contacts st)) (currentContact st) (transcript st)
    (photoDraft st) (isProcessing st) (view st) (formData st).

Definition setCurrentContact (c : option Contact) (st : State) : State :=
  mkState (contacts st) c (transcript st) (photoDraft st) (isProcessing st)
    (view st) (formData st).

Definition setTranscript (t : string) (st : State) : State :=
  mkState (contacts st) (currentContact st) t (photoDraft st)
    (isProcessing st) (view st) (formData st).

Definition setPhoto (p : option string) (st : State) : State :=
  mkState (contacts st) (currentContact st) (transcript st) p
    (isProcessing st) (view st) (formData st).

Definition setIsProcessing (b : bool) (st : State) : State :=
  mkState (contacts st) (currentContact st) (transcript st) (photoDraft st)
    b (view st) (formData st).

Definition setView (v : View) (st : State) : State :=
  mkState (contacts st) (currentContact st) (transcript st) (photoDraft st)
    (isProcessing st) v (formData st).

Definition setFormData (f : FormData) (st : State) : State :=
  mkState (contacts st) (currentContact st) (transcript st) (photoDraft st)
    (isProcessing st) (view st) f.

(** [resetForm] *)
Definition resetForm (st : State) : State :=
  setFormData emptyForm (setPhoto None (setTranscript EmptyString st)).

(** ** The creation flow: [processWithAI] *)

(** What [await fetch(...)] settles to. [resp_json] is what
    [await response.json()] gives: [None] when the body is not JSON and the
    promise rejects. *)
Record Response : Type := mkResponse {
  resp_status : Z;
  resp_json : option Js.value
}.

(** [response.ok]: the status is in the range 200-299. *)
Definition resp_ok (r : Response) : bool :=
  ((200 <=? resp_status r) && (resp_status r <=? 299))%Z.

Inductive FetchOutcome : Type :=
| FetchRejected                  (* network failure: the promise rejects *)
| FetchResolved (r : Response).

(** The body of the request: [JSON.stringify({ transcript, formData })]. *)
Record FetchRequest : Type := mkFetchRequest {
  rq_transcript : string;
  rq_formData : FormData
}.

(** One reading of the wall clock: [Date.now()] in milliseconds and
    [new Date().toISOString()]. *)
Record Clock : Type := mkClock {
  now : Z;
  iso : string
}.

(** [photo || undefined], [photo] being a string or [null] *)
Definition photo_or_undefined (p : option string) : Js.value :=
  match p with
  | Some s => Js.or (Js.Str s) Js.Undefined
  | None => Js.Undefined
  end.

(** [!transcript.trim()], the guard of the flow and of its button *)
Definition blank (t : string) : bool := Str.is_empty (Str.trim t).

(** The object literal [newContact] of the [try] block. [st0] is the render
    whose closure the handler runs in: it fixes [transcript], [formData] and
    [photo]. Reading a property of [parsed] throws when [parsed] is
    [null]. *)
Definition newContact (st0 : State) (clk : Clock) (parsed : Js.value)
  : Js.result Contact :=
  let fd := formData st0 in
  p_name <- Js.get parsed "name" ;;
  p_company <- Js.get parsed "company" ;;
  p_role <- Js.get parsed "role" ;;
  p_email <- Js.get parsed "email" ;;
  p_phone <- Js.get parsed "phone" ;;
  p_location <- Js.get parsed "location" ;;
  p_summary <- Js.get parsed "summary" ;;
  p_keyTopics <- Js.get parsed "keyTopics" ;;
  p_actionItems <- Js.get parsed "actionItems" ;;
  p_followUp <- Js.get parsed "followUpSuggestion" ;;
  Js.ret {|
    id := now clk;
    name := Js.or (Js.or p_name (Js.Str (fd_name fd)))
              (Js.Str "Unknown Contact");
    company := Js.or (Js.or p_company (Js.Str (fd_company fd))) Js.Undefined;
    role := Js.or (Js.or p_role (Js.Str (fd_role fd))) Js.Undefined;
    email := Js.or (Js.or p_email (Js.Str (fd_email fd))) Js.Undefined;
    phone := Js.or (Js.or p_phone (Js.Str (fd_phone fd))) Js.Undefined;
    location := Js.or (Js.or p_location (Js.Str (fd_location fd)))
                  Js.Undefined;
    photo := photo_or_undefined (photoDraft st0);
    summary := p_summary;
    keyTopics := p_keyTopics;
    actionItems := p_actionItems;
    followUpSuggestion := p_followUp;
    rawNotes := transcript st0;
    meetingContext := Js.or (Js.Str (fd_meetingContext fd)) Js.Undefined;
    createdAt := iso clk
  |}.

(** The object literal [fallbackContact] of the [catch] block. *)
Definition fallbackContact (st0 : State) (clk : Clock) : Contact :=
  let fd := formData st0 in
  {|
    id := now clk;
    name := Js.or (Js.Str (fd_name fd)) (Js.Str "New Contact");
    company := Js.or (Js.Str (fd_company fd)) Js.Undefined;
    role := Js.or (Js.Str (fd_role fd)) Js.Undefined;
    email := Js.or (Js.Str (fd_email fd)) Js.Undefined;
    phone := Js.or (Js.Str (fd_phone fd)) Js.Undefined;
    location := Js.or (Js.Str (fd_location fd)) Js.Undefined;
    photo := photo_or_undefined (photoDraft st0);
    rawNotes := transcript st0;
    summary := Js.Str "Notes captured - AI summary unavailable";
    keyTopics := Js.Arr [];
    actionItems := Js.Arr [];
    followUpSuggestion := Js.Str "Review notes and follow up as appropriate";
    meetingContext := Js.or (Js.Str (fd_meetingContext fd)) Js.Undefined;
    createdAt := iso clk
  |}.

(** The [try] block up to the point where the new contact is built: the
    three awaits and the [throw] on a response that is not ok. *)
Definition extraction (st0 : State) (clk : Clock) (out : FetchOutcome)
  : Js.result Contact :=
  response <- match out with
              | FetchRejected => Js.throw (Js.TypeError "Failed to fetch")
              | FetchResolved r => Js.ret r
              end ;;
  if negb (resp_ok response) then Js.throw (Js.Error "API request failed")
  else
    parsed <- match resp_json response with
              | None => Js.throw (Js.SyntaxError "Unexpected token")
              | Some v => Js.ret v
              end ;;
    newContact st0 clk parsed.

(** The four state updates both blocks end with:
    [setContacts(prev => [c, ...prev]); setCurrentContact(c);
     setView('detail'); resetForm()]. *)
Definition commitContact (c : Contact) (st : State) : State :=
  resetForm
    (setView DetailV
       (setCurrentContact (Some c)
          (setContacts (fun prev => c :: prev) st))).

Inductive Path : Type := SuccessPath | FallbackPath.

(** Which block builds the contact: the [catch] block runs exactly when the
    [try] block throws, and nothing throws after the contact is built. *)
Definition path_taken (st0 : State) (clk : Clock) (out : FetchOutcome) : Path :=
  match extraction st0 clk out with
  | inr _ => SuccessPath
  | inl _ => FallbackPath
  end.

(** The contact the flow creates. *)
Definition createdContact (st0 : State) (clk : Clock) (out : FetchOutcome)
  : Contact :=
  match extraction st0 clk out with
  | inr c => c
  | inl _ => fallbackContact st0 clk
  end.

(** [processWithAI] up to [await fetch]: [None] when the guard returns at
    once, otherwise the state with the processing flag set and the request
    that is sent. *)
Definition processWithAI_begin (st : State) : option (State * FetchRequest) :=
  if blank (transcript st) then None
  else Some (setIsProcessing true st,
             mkFetchRequest (transcript st) (formData st)).

(** [processWithAI] from the settling of [fetch] to its end. [st0] is the
    render the handler was started in, [st] the state at the time the
    updates are applied. *)
Definition processWithAI_resume (st0 : State) (clk : Clock)
  (out : FetchOutcome) (st : State) : State :=
  setIsProcessing false
    (match extraction st0 clk out with
     | inr newC => commitContact newC st
     | inl _ => commitContact (fallbackContact st0 clk) st
     end).

(** The whole flow when nothing else happens while the call is in flight. *)
Definition processWithAI (st : State) (clk : Clock) (out : FetchOutcome)
  : State :=
  match processWithAI_begin st with
  | None => st
  | Some (st1, _) => processWithAI_resume st clk out st1
  end.

(** The [disabled] attribute of the process button of [NewContactView]. *)
Definition processDisabled (st : State) : bool :=
  (blank (transcript st) || isProcessing st)%bool.

(** A click on the process button: a disabled button runs no handler. *)
Definition clickProcess (st : State) : option (State * FetchRequest) :=
  if processDisabled st then None else processWithAI_begin st.

(** [deleteContact] *)
Definition deleteContact (i : Z) (st : State) : State :=
  setCurrentContact None
    (setView ListV
       (setContacts (filter (fun c => negb (Z.eqb (id c) i))) st)).

(** ** What can happen while the extraction call is in flight *)

(** The inputs of the creation view; the draft's [location] has none. *)
Inductive FieldKey : Type :=
| KName | KCompany | KRole | KEmail | KPhone | KMeetingContext.

(** [{ ...prev, [key]: value }] *)
Definition setField (k : FieldKey) (v : string) (fd : FormData) : FormData :=
  match k with
  | KName =>
      mkFormData v (fd_company fd) (fd_role fd) (fd_email fd) (fd_phone fd)
        (fd_location fd) (fd_meetingContext fd)
  | KCompany =>
      mkFormData (fd_name fd) v (fd_role fd) (fd_email fd) (fd_phone fd)
        (fd_location fd) (fd_meetingContext fd)
  | KRole =>
      mkFormData (fd_name fd) (fd_company fd) v (fd_email fd) (fd_phone fd)
        (fd_location fd) (fd_meetingContext fd)
  | KEmail =>
      mkFormData (fd_name fd) (fd_company fd) (fd_role fd) v (fd_phone fd)
        (fd_location fd) (fd_meetingContext fd)
  | KPhone =>
      mkFormData (fd_name fd) (fd_company fd) (fd_role fd) (fd_email fd) v
        (fd_location fd) (fd_meetingContext fd)
  | KMeetingContext =>
      mkFormData (fd_name fd) (fd_company fd) (fd_role fd) (fd_email fd)
        (fd_phone fd) (fd_location fd) v
  end.

(** The handlers and callbacks of the component other than the process
    button, on the state cells of [State]. *)
Inductive Event : Type :=
| OpenNew                                  (* the + button of the list *)
| CloseNew                                 (* the X of the creation view *)
| EditField (k : FieldKey) (v : string)    (* onChange of an input *)
| EditTranscript (t : string)              (* onChange of the textarea *)
| SpeechResult (finalTranscript : string)  (* recognition.onresult *)
| ToggleRecording (recording : bool)       (* the microphone button *)
| PhotoLoaded (dataUrl : string)           (* reader.onloadend *)
| SelectContact (c : Contact)              (* a click on a list entry *)
| BackToList                               (* the X of the detail view *)
| DeleteCurrent.                           (* the bin of the detail view *)

Definition handle (e : Event) (st : State) : State :=
  match e with
  | OpenNew => setView NewV st
  | CloseNew => resetForm (setView ListV st)
  | EditField k v => setFormData (setField k v (formData st)) st
  | EditTranscript t => setTranscript t st
  | SpeechResult finalTranscript =>
      if Str.is_empty finalTranscript then st
      else setTranscript (transcript st ++ finalTranscript) st
  | ToggleRecording recording =>
      if recording then st else setTranscript EmptyString st
  | PhotoLoaded dataUrl => setPhoto (Some dataUrl) st
  | SelectContact c => setView DetailV (setCurrentContact (Some c) st)
  | BackToList => setView ListV st
  | DeleteCurrent =>
      match currentContact st with
      | Some c => deleteContact (id c) st
      | None => st
      end
  end.

Definition handleAll (es : list Event) (st : State) : State :=
  fold_left (fun s e => handle e s) es st.

(** ** vCard export: [generateVCard] *)

(** One conditional line of the template literal,
    [${v ? `<label>${v}<suffix>` : ''}]: the text between the two line
    feeds that surround it in the source. *)
Definition optionalLine (label : string) (v : Js.value) (suffix : string)
  : Js.result string :=
  if Js.truthy v then
    s <- Js.toString v ;;
    Js.ret (label ++ s ++ suffix)
  else Js.ret EmptyString.

(** The text handed to [new Blob]: the template literal of [generateVCard],
    whose ten source lines are separated by line feeds. *)
Definition generateVCard (c : Contact) : Js.result string :=
  fn <- Js.toString (name c) ;;
  org <- optionalLine "ORG:" (company c) EmptyString ;;
  title <- optionalLine "TITLE:" (role c) EmptyString ;;
  mail <- optionalLine "EMAIL:" (email c) EmptyString ;;
  tel <- optionalLine "TEL:" (phone c) EmptyString ;;
  adr <- optionalLine "ADR:;;" (location c) ";;;" ;;
  note <- Js.toString (Js.or (summary c) (Js.Str EmptyString)) ;;
  met <- Js.toString (Js.or (meetingContext c) (Js.Str "Conference")) ;;
  Js.ret (Str.unlines
    [ "BEGIN:VCARD";
      "VERSION:3.0";
      "FN:" ++ fn;
      org;
      title;
      mail;
      tel;
      adr;
      "NOTE:" ++ note ++ " | Met: " ++ met;
      "END:VCARD" ]).

(** A contact whose only present attribute, among those the card shows, is
    its name, a string. *)
Definition nameOnly (c : Contact) (n : string) : Prop :=
  name c = Js.Str n /\
  company c = Js.Undefined /\
  role c = Js.Undefined /\
  email c = Js.Undefined /\
  phone c = Js.Undefined /\
  location c = Js.Undefined /\
  summary c = Js.Undefined /\
  meetingContext c = Js.Undefined.

(** The five lines the card of a name-only contact should consist of. *)
Definition nameOnlyLines (n : string) : list string :=
  [ "BEGIN:VCARD"; "VERSION:3.0"; "FN:" ++ n;
    "NOTE: | Met: Conference"; "END:VCARD" ].

(** ** The local store and the two effects that use it *)

(** [localStorage], where there is one. The item under [STORAGE_KEY] is
    represented by the contact list it decodes to: [JSON.stringify] followed
    by [JSON.parse] is taken to be the identity on contact lists. [None] is
    a key that was never written. *)
Record Storage : Type := mkStorage {
  hasWindow : bool;               (* typeof window !== 'undefined' *)
  item : option (list Contact)
}.

(** [saveToStorage] *)
Definition saveToStorage (cs : list Contact) (sto : Storage) : Storage :=
  if hasWindow sto then mkStorage true (Some cs) else sto.

(** [loadFromStorage] *)
Definition loadFromStorage (sto : Storage) : list Contact :=
  if hasWindow sto then
    match item sto with
    | Some cs => cs
    | None => []
    end
  else [].

(** The first effect, [useEffect(..., [])]: the argument it passes to
    [setContacts]. The update is applied by the next render. *)
Definition loadEffect (sto : Storage) : list Contact := loadFromStorage sto.

(** The second effect, [useEffect(..., [contacts])], run with the value
    [cs] that [contacts] has in the render the effect belongs to. *)
Definition saveEffect (cs : list Contact) (sto : Storage) : Storage :=
  if ((0 <? length cs)%nat || (0 <? length (loadFromStorage sto))%nat)%bool
  then saveToStorage cs sto
  else sto.

(** The first load-and-render cycle. The component renders with the initial
    state, whose [contacts] is the empty list; after the commit React runs
    the effects of that render in the order of their declaration. The load
    effect queues the stored list, which [contacts] holds only from the
    second render on; the save effect still sees the [contacts] of the
    first render. The result is the queued list and the storage after both
    effects. *)
Definition firstCycle (sto : Storage) : list Contact * Storage :=
  let queued := loadEffect sto in
  let sto' := saveEffect (contacts initialState) sto in
  (queued, sto').

(** The second render: [contacts] is the queued list, and the save effect
    runs again because its dependency changed. *)
Definition secondCycle (queued : list Contact) (sto : Storage)
  : State * Storage :=
  (setContacts (fun _ => queued) initialState, saveEffect queued sto).

(** ** Sequences of creations *)

(** What the user and the environment supply to one run of the creation
    flow: the draft, the transcript, the photo, the clock reading and what
    the extraction call settles to. *)
Record Creation : Type := mkCreation {
  cr_form : FormData;
  cr_transcript : string;
  cr_photo : option string;
  cr_clock : Clock;
  cr_outcome : FetchOutcome
}.

(** Entering the inputs of a creation in the creation view. *)
Definition fillDraft (cr : Creation) (st : State) : State :=
  setPhoto (cr_photo cr)
    (setTranscript (cr_transcript cr)
       (setFormData (cr_form cr) (setView NewV st))).

(** One creation, from the opening of the creation view to the end of the
    flow. *)
Definition create (st : State) (cr : Creation) : State :=
  let st1 := fillDraft cr st in
  processWithAI st1 (cr_clock cr) (cr_outcome cr).

(** The contact that the creation [cr] adds. *)
Definition contactOf (cr : Creation) : Contact :=
  createdContact (fillDraft cr initialState) (cr_clock cr) (cr_outcome cr).

Definition createAll (crs : list Creation) (st : State) : State :=
  fold_left create crs st.

(** ** The extraction endpoint: [POST] *)

(** [await request.json()]: [None] when the body is not JSON and the
    promise rejects. *)
Record Request : Type := mkRequest {
  req_json : option Js.value
}.

(** A content block of the upstream message; [block_text] is read only on
    a block whose type is [text]. *)
Record Block : Type := mkBlock {
  block_type : string;
  block_text : string
}.

Record Message : Type := mkMessage {
  content : list Block
}.

(** The argument of [anthropic.messages.create]; a message is a pair of a
    role and a content. *)
Record CreateParams : Type := mkCreateParams {
  model : string;
  max_tokens : Z;
  messages : list (string * string)
}.

(** The upstream model: what [await anthropic.messages.create(params)]
    settles to. *)
Definition Upstream : Type := CreateParams -> Js.result Message.

(** [NextResponse.json(body, { status })] *)
Record HttpResponse : Type := mkHttpResponse {
  status : Z;
  body : Js.value
}.

Definition errorBody (msg : string) : Js.value :=
  Js.Obj [("error", Js.Str msg)].

(** [const { transcript, formData } = await request.json()] *)
Definition readRequest (req : Request) : Js.result (Js.value * Js.value) :=
  parsedBody <- match req_json req with
                | None => Js.throw (Js.SyntaxError "Unexpected end of JSON input")
                | Some v => Js.ret v
                end ;;
  t <- Js.get parsedBody "transcript" ;;
  f <- Js.get parsedBody "formData" ;;
  Js.ret (t, f).

(** One hint line of the prompt,
    [${formData.k ? `<label>${formData.k}` : ''}]. *)
Definition hintLine (label : string) (formData : Js.value) (k : string)
  : Js.result string :=
  v <- Js.get formData k ;;
  if Js.truthy v then
    v' <- Js.get formData k ;;
    s <- Js.toString v' ;;
    Js.ret (label ++ s)
  else Js.ret EmptyString.

(** The fixed lines of the prompt after the hints. *)
Definition promptFooter : list string :=
  [ EmptyString;
    "Respond in JSON only, no markdown backticks or any other text:";
    "{";
    "  " ++ Str.quoted "name" ++ ": "
         ++ Str.quoted "extracted or provided name" ++ ",";
    "  " ++ Str.quoted "company" ++ ": "
         ++ Str.quoted "extracted or provided company" ++ ",";
    "  " ++ Str.quoted "role" ++ ": "
         ++ Str.quoted "extracted or provided role/title" ++ ",";
    "  " ++ Str.quoted "email" ++ ": "
         ++ Str.quoted "extracted email or null" ++ ",";
    "  " ++ Str.quoted "phone" ++ ": "
         ++ Str.quoted "extracted phone or null" ++ ",";
    "  " ++ Str.quoted "location" ++ ": "
         ++ Str.quoted "extracted location or null" ++ ",";
    "  " ++ Str.quoted "summary" ++ ": "
         ++ Str.quoted
              "2-3 sentence summary of who they are and what you discussed"
         ++ ",";
    "  " ++ Str.quoted "keyTopics" ++ ": ["
         ++ Str.quoted "topic1" ++ ", " ++ Str.quoted "topic2" ++ "],";
    "  " ++ Str.quoted "actionItems" ++ ": ["
         ++ Str.quoted "action1" ++ ", " ++ Str.quoted "action2" ++ "],";
    "  " ++ Str.quoted "followUpSuggestion" ++ ": "
         ++ Str.quoted "suggested follow-up approach";
    "}" ].

Definition promptHeader : list string :=
  [ "Analyze this conversation notes from meeting someone at a conference/event. Extract structured information and provide a summary with action items.";
    EmptyString;
    "Conversation notes:" ].

(** The template literal passed as [content], its substitutions evaluated
    from top to bottom. *)
Definition buildPrompt (transcript formData : Js.value) : Js.result string :=
  t <- Js.toString transcript ;;
  hName <- hintLine "Name provided: " formData "name" ;;
  hCompany <- hintLine "Company provided: " formData "company" ;;
  hRole <- hintLine "Role provided: " formData "role" ;;
  hContext <- hintLine "Meeting context: " formData "meetingContext" ;;
  Js.ret (Str.unlines
    (promptHeader
       ++ [ t; EmptyString; hName; hCompany; hRole; hContext ]
       ++ promptFooter)%list).

Definition createParams (prompt : string) : CreateParams :=
  mkCreateParams "claude-sonnet-4-20250514" 1024 [("user", prompt)].

(** [textContent.text.replace(/```json\n?/g, '').replace(/```\n?/g, '').trim()] *)
Definition cleanText (text : string) : string :=
  Str.trim (Str.remove_all "```" (Str.remove_all "```json" text)).

(** [message.content.find(block => block.type === 'text')] *)
Definition findText (m : Message) : option Block :=
  find (fun b => String.eqb (block_type b) "text") (content m).

(** The JSON object the client sends for a draft, as the handler reads it
    back. *)
Definition formValue (fd : FormData) : Js.value :=
  Js.Obj
    [ ("name", Js.Str (fd_name fd));
      ("company", Js.Str (fd_company fd));
      ("role", Js.Str (fd_role fd));
      ("email", Js.Str (fd_email fd));
      ("phone", Js.Str (fd_phone fd));
      ("location", Js.Str (fd_location fd));
      ("meetingContext", Js.Str (fd_meetingContext fd)) ].

(** The request that [fetch('/api/process', ...)] delivers. *)
Definition requestOf (rq : FetchRequest) : Request :=
  mkRequest
    (Some (Js.Obj [ ("transcript", Js.Str (rq_transcript rq));
                    ("formData", formValue (rq_formData rq)) ])).

(** [v.k] where the read cannot throw: the own property of an object,
    [undefined] on every other value. *)
Definition prop (v : Js.value) (k : string) : Js.value :=
  match v with
  | Js.Obj props => Js.lookup k props
  | _ => Js.Undefined
  end.

Section Endpoint.

(** [JSON.parse], a function of the platform: [None] when it throws. *)
Variable JSON_parse : string -> option Js.value.

(** The handler after [await anthropic.messages.create(...)] settles. *)
Definition afterCall (settled : Js.result Message) : Js.result HttpResponse :=
  message <- settled ;;
  textContent <- match findText message with
                 | None => Js.throw (Js.Error "No text content in response")
                 | Some b => Js.ret b
                 end ;;
  let cleanedText := cleanText (block_text textContent) in
  parsed <- match JSON_parse cleanedText with
            | None => Js.throw (Js.SyntaxError "Unexpected token")
            | Some v => Js.ret v
            end ;;
  Js.ret (mkHttpResponse 200 parsed).

(** The [try] block of [POST], with the upstream calls it makes. *)
Definition tryBlock (req : Request) (anthropic : Upstream)
  : Js.result HttpResponse * list CreateParams :=
  match readRequest req with
  | inl e => (inl e, [])
  | inr (transcript, formData) =>
      if negb (Js.truthy transcript) then
        (Js.ret (mkHttpResponse 400 (errorBody "No transcript provided")), [])
      else
        match buildPrompt transcript formData with
        | inl e => (inl e, [])
        | inr prompt =>
            let params := createParams prompt in
            (afterCall (anthropic params), [params])
        end
  end.

(** [POST]: the response, and the upstream calls made on the way. *)
Definition POST (req : Request) (anthropic : Upstream)
  : HttpResponse * list CreateParams :=
  let (r, calls) := tryBlock req anthropic in
  (match r with
   | inr response => response
   | inl _ => mkHttpResponse 500 (errorBody "Failed to process with AI")
   end, calls).

End Endpoint.

(** ** The precedence rule, in the words of the specification *)

(** The extraction result of an overlapping field wins if it is present and
    non-empty; otherwise the draft value, if it is non-empty; otherwise the
    field is absent. [None] is an absent field. *)
Definition precedence (extracted : option string) (draft : string)
  : option string :=
  match extracted with
  | Some s =>
      if Str.is_empty s
      then (if Str.is_empty draft then None else Some draft)
      else Some s
  | None => if Str.is_empty draft then None else Some draft
  end.

(** The extraction result of field [k] as a nullable string: present when
    the parsed response holds a string under [k]. *)
Definition extractedField (parsed : Js.value) (k : string) : option string :=
  match prop parsed k with
  | Js.Str s => Some s
  | _ => None
  end.

(** The response declares its string fields nullable: a field is a string,
    [null] or missing. *)
Definition nullableString (v : Js.value) : bool :=
  match v with
  | Js.Str _ | Js.Null | Js.Undefined => true
  | _ => false
  end.

Definition overlappingFields : list string :=
  [ "name"; "company"; "role"; "email"; "phone"; "location" ].

Definition wellTypedFields (parsed : Js.value) : Prop :=
  Forall (fun k => nullableString (prop parsed k) = true) overlappingFields.

(** An optional string as the field of a contact. *)
Definition fieldOf (o : option string) : Js.value :=
  match o with
  | Some s => Js.Str s
  | None => Js.Undefined
  end.

Definition orPlaceholder (o : option string) (placeholder : string) : string :=
  match o with
  | Some s => s
  | None => placeholder
  end.

(** The placeholder name of each path. *)
Definition placeholderName (p : Path) : string :=
  match p with
  | SuccessPath => "Unknown Contact"
  | FallbackPath => "New Contact"
  end.

(** The ways the extraction call fails: the network, a status outside
    200-299, a body that is not JSON, and the JSON body [null], on which the
    first property read throws. *)
Inductive ExtractionFailed : FetchOutcome -> Prop :=
| NetworkFailure : ExtractionFailed FetchRejected
| NotOk r : resp_ok r = false -> ExtractionFailed (FetchResolved r)
| MalformedJson r : resp_json r = None -> ExtractionFailed (FetchResolved r)
| NullBody r : resp_json r = Some Js.Null -> ExtractionFailed (FetchResolved r).

(** ** The failures of the handler, step by step *)

Section EndpointOutcomes.

Variable JSON_parse : string -> option Js.value.

(** The failures of processing, in the order the handler can meet them:
    the body of the request cannot be read as JSON or is [null]; the prompt
    cannot be built from a transcript that is present; the upstream call
    throws; the upstream message has no text block; the cleaned text is not
    JSON. *)
Inductive ProcessingFailure (req : Request) (anthropic : Upstream) : Prop :=
| UnreadableBody :
    req_json req = None -> ProcessingFailure req anthropic
| NullRequest v :
    req_json req = Some v -> v = Js.Null \/ v = Js.Undefined ->
    ProcessingFailure req anthropic
| PromptFailure t f e :
    readRequest req = inr (t, f) -> Js.truthy t = true ->
    buildPrompt t f = inl e -> ProcessingFailure req anthropic
| UpstreamError t f prompt e :
    readRequest req = inr (t, f) -> Js.truthy t = true ->
    buildPrompt t f = inr prompt ->
    anthropic (createParams prompt) = inl e ->
    ProcessingFailure req anthropic
| NoTextContent t f prompt m :
    readRequest req = inr (t, f) -> Js.truthy t = true ->
    buildPrompt t f = inr prompt ->
    anthropic (createParams prompt) = inr m ->
    findText m = None -> ProcessingFailure req anthropic
| ParseFailure t f prompt m b :
    readRequest req = inr (t, f) -> Js.truthy t = true ->
    buildPrompt t f = inr prompt ->
    anthropic (createParams prompt) = inr m ->
    findText m = Some b ->
    JSON_parse (cleanText (block_text b)) = None ->
    ProcessingFailure req anthropic.

End EndpointOutcomes.

(** The text of a hint: the label and the value of a field that is not
    empty, nothing for an empty field. *)
Definition hintText (label value : string) : string :=
  if Str.is_empty value then EmptyString else label ++ value.

(** The prompt as a function of the transcript and of the four draft fields
    the template embeds: name, company, role and meeting context. *)
Definition promptFor (t : string) (fd : FormData) : string :=
  Str.unlines
    (promptHeader
       ++ [ t; EmptyString;
            hintText "Name provided: " (fd_name fd);
            hintText "Company provided: " (fd_company fd);
            hintText "Role provided: " (fd_role fd);
            hintText "Meeting context: " (fd_meetingContext fd) ]
       ++ promptFooter)%list.

(** The draft [fd] with other contact details. *)
Definition withContactDetails (fd : FormData) (e p l : string) : FormData :=
  mkFormData (fd_name fd) (fd_company fd) (fd_role fd) e p l
    (fd_meetingContext fd).

(** ** Sample data *)

Module Sample.

Definition notes : string :=
  "Met Sarah from Acme Corp, VP of Engineering. Discussed Kubernetes migration. Follow up next week.".

Definition form : FormData :=
  mkFormData EmptyString EmptyString EmptyString "sarah@acme.example"
    EmptyString EmptyString "Conf Hall B".

(** The creation view with the notes and the draft entered. *)
Definition state : State :=
  mkState [] None notes None false NewV form.

Definition clock : Clock := mkClock 1700000000000 "2023-11-14T22:13:20.000Z".

Definition parsed : Js.value :=
  Js.Obj
    [ ("name", Js.Str "Sarah");
      ("company", Js.Str "Acme Corp");
      ("role", Js.Str "VP of Engineering");
      ("email", Js.Null);
      ("phone", Js.Null);
      ("location", Js.Str EmptyString);
      ("summary", Js.Str "Sarah leads engineering at Acme Corp.");
      ("keyTopics", Js.Arr [Js.Str "Kubernetes migration"]);
      ("actionItems", Js.Arr [Js.Str "Follow up next week"]);
      ("followUpSuggestion", Js.Str "Send a short note next week") ].

Definition okResponse : Response := mkResponse 200 (Some parsed).

Definition blankContact (i : Z) (n : string) : Contact :=
  mkContact i (Js.Str n) Js.Undefined Js.Undefined Js.Undefined
    Js.Undefined Js.Undefined Js.Undefined Js.Undefined Js.Undefined
    Js.Undefined Js.Undefined EmptyString Js.Undefined
    "2023-11-14T22:13:20.000Z".

Definition ada : Contact := blankContact 1700000000000 "Ada".
Definition bob : Contact := blankContact 1700000000000 "Bob".
Definition eve : Contact := blankContact 1700000000001 "Eve".

(** Two contacts created in the same millisecond, then a third. *)
Definition sameIdState : State :=
  mkState [eve; bob; ada] (Some ada) EmptyString None false DetailV emptyForm.

Definition distinctIdState : State :=
  mkState [eve; ada] (Some ada) EmptyString None false DetailV emptyForm.

Definition creations : list Creation :=
  [ mkCreation form notes None clock FetchRejected;
    mkCreation emptyForm "Met Bob." None (mkClock 1700000000500 "later")
      (FetchResolved okResponse) ].

(** A parser that knows one text. *)
Definition parseOnly (text : string) (v : Js.value) (s : string)
  : option Js.value :=
  if String.eqb s text then Some v else None.

Definition offline : Upstream := fun _ => inl (Js.Error "Connection error").

Definition answering (text : string) : Upstream :=
  fun _ => inr (mkMessage [mkBlock "text" text]).

Definition request : Request := requestOf (mkFetchRequest notes form).

(** An answer of the model that wraps the object in a code fence. *)
Definition fenced : string :=
  "```json" ++ Str.nl ++ "{}" ++ Str.nl ++ "```" ++ Str.nl.

Definition noTranscript : Request :=
  mkRequest (Some (Js.Obj [("formData", formValue form)])).

End Sample.

(** ** Speech capture *)

(** An entry of [event.results]: the transcript of its first alternative,
    [event.results[i][0].transcript], and its [isFinal] flag. *)
Record RecognitionResult : Type := mkRecognitionResult {
  res_transcript : string;
  res_isFinal : bool
}.

(** The [for] loop of [onresult], from index [i] on: [fuel] bounds the
    number of iterations, [acc] is [finalTranscript]. The loop ends when
    [i] reaches [event.results.length]. *)
Fixpoint finalLoop (fuel i : nat) (results : list RecognitionResult)
  (acc : string) : string :=
  match fuel with
  | O => acc
  | S fuel' =>
      match nth_error results i with
      | None => acc
      | Some r =>
          finalLoop fuel' (S i) results
            (if res_isFinal r then acc ++ (res_transcript r ++ " ") else acc)
      end
  end.

(** [finalTranscript] at the end of the loop of [onresult]. *)
Definition finalTranscriptOf (resultIndex : nat)
  (results : list RecognitionResult) : string :=
  finalLoop (length results) resultIndex results EmptyString.

(** [recognition.onresult] *)
Definition onresult (resultIndex : nat) (results : list RecognitionResult)
  (st : State) : State :=
  handle (SpeechResult (finalTranscriptOf resultIndex results)) st.

(** A call on a recognizer: [start()] that returned, [start()] that threw,
    [stop()]. Recognizers are numbered in the order of their creation. *)
Inductive Call : Type :=
| Started (i : nat)
| StartThrew (i : nat)
| Stopped (i : nat).

(** The cells of the component that the speech effect and the microphone
    button use. [closures] has one entry per recognizer created so far: the
    value of [isRecording] in the render whose effect created it, which is
    the value its [onend] handler sees. [current] is
    [recognitionRef.current]; [calls] lists the calls made, latest first. *)
Record Recorder : Type := mkRecorder {
  isRecording : bool;
  speechSupported : bool;
  closures : list bool;
  current : option nat;
  calls : list Call
}.

Definition initialRecorder : Recorder := mkRecorder false false [] None [].

(** The third effect, [useEffect(..., [isRecording])], in a browser that
    has the speech API ([hasApi]) or not: it creates a new recognizer, puts
    it in the ref and attaches the three handlers to it. *)
Definition speechEffect (hasApi : bool) (r : Recorder) : Recorder :=
  if hasApi then
    mkRecorder (isRecording r) true (closures r ++ [isRecording r])%list
      (Some (length (closures r))) (calls r)
  else r.

(** [setIsRecording(b)] followed by the render it causes: when the value
    changes, the effect runs again, before the next event is handled. *)
Definition setIsRecording (hasApi : bool) (b : bool) (r : Recorder)
  : Recorder :=
  if Bool.eqb b (isRecording r) then r
  else
    speechEffect hasApi
      (mkRecorder b (speechSupported r) (closures r) (current r) (calls r)).

Definition logCall (c : Call) (r : Recorder) : Recorder :=
  mkRecorder (isRecording r) (speechSupported r) (closures r) (current r)
    (c :: calls r).

(** [recognitionRef.current?.start()]: nothing without a recognizer;
    [startOk] tells whether the call returns or throws. [None] is a throw. *)
Definition startCurrent (startOk : bool) (r : Recorder) : option Recorder :=
  match current r with
  | None => Some r
  | Some i => if startOk then Some (logCall (Started i) r) else None
  end.

Definition logThrow (r : Recorder) : Recorder :=
  match current r with
  | None => r
  | Some i => logCall (StartThrew i) r
  end.

(** [recognitionRef.current?.stop()] *)
Definition stopCurrent (r : Recorder) : Recorder :=
  match current r with
  | None => r
  | Some i => logCall (Stopped i) r
  end.

(** [toggleRecording] *)
Definition toggleRecording (hasApi startOk : bool) (app : State * Recorder)
  : State * Recorder :=
  let (st, r) := app in
  if isRecording r then
    (st, setIsRecording hasApi false (stopCurrent r))
  else
    let st' := setTranscript EmptyString st in
    match startCurrent startOk r with
    | Some r' => (st', setIsRecording hasApi true r')
    | None => (st', logThrow r)
    end.

(** A click on the microphone button, which is disabled without speech
    support. *)
Definition clickMic (hasApi startOk : bool) (app : State * Recorder)
  : State * Recorder :=
  if speechSupported (snd app) then toggleRecording hasApi startOk app
  else app.

(** [onerror] of any recognizer *)
Definition onerror (hasApi : bool) (app : State * Recorder)
  : State * Recorder :=
  (fst app, setIsRecording hasApi false (snd app)).

(** [onend] of recognizer [i]: the handler restarts the current recognizer
    when the [isRecording] of its closure is set. *)
Definition onend (hasApi startOk : bool) (i : nat) (app : State * Recorder)
  : State * Recorder :=
  let (st, r) := app in
  match nth_error (closures r) i with
  | Some true =>
      match startCurrent startOk r with
      | Some r' => (st, r')
      | None => (st, setIsRecording hasApi false (logThrow r))
      end
  | _ => (st, r)
  end.

(** What happens to the speech part of the component: a click on the
    microphone, or an event of a recognizer on which [start()] returned. *)
Inductive SpeechStep (hasApi : bool)
  : State * Recorder -> State * Recorder -> Prop :=
| StepMic startOk app :
    SpeechStep hasApi app (clickMic hasApi startOk app)
| StepResult i resultIndex results app :
    In (Started i) (calls (snd app)) ->
    SpeechStep hasApi app
      (onresult resultIndex results (fst app), snd app)
| StepError i app :
    In (Started i) (calls (snd app)) ->
    SpeechStep hasApi app (onerror hasApi app)
| StepEnd startOk i app :
    In (Started i) (calls (snd app)) ->
    SpeechStep hasApi app (onend hasApi startOk i app).

(** The states the speech part can be in, from the first render on. *)
Inductive SpeechReachable (hasApi : bool) : State * Recorder -> Prop :=
| SpeechMounted st :
    SpeechReachable hasApi (st, speechEffect hasApi initialRecorder)
| SpeechNext app app' :
    SpeechReachable hasApi app -> SpeechStep hasApi app app' ->
    SpeechReachable hasApi app'.

(** ** The file name of the download *)

(** [name.replace(/\s+/g, '_')]: every maximal run of white space becomes
    one underscore. [inRun] tells whether the previous code unit was white
    space. *)
Fixpoint underscoreRuns (inRun : bool) (s : string) : string :=
  match s with
  | EmptyString => EmptyString
  | String c r =>
      if Str.is_space c then
        if inRun then underscoreRuns true r
        else String "_" (underscoreRuns true r)
      else String c (underscoreRuns false r)
  end.

(** [a.download]: [`${contact.name.replace(/\s+/g, '_')}.vcf`]. A name that
    is not a string has no [replace] method. *)
Definition downloadName (c : Contact) : Js.result string :=
  match name c with
  | Js.Str n => Js.ret (underscoreRuns false n ++ ".vcf")
  | Js.Undefined | Js.Null =>
      Js.throw (Js.TypeError "Cannot read properties of undefined")
  | _ => Js.throw (Js.TypeError "contact.name.replace is not a function")
  end.

(** [generateVCard] as a whole: the text of the card and the name of the
    file it is offered under. *)
Definition downloadCard (c : Contact) : Js.result (string * string) :=
  text <- generateVCard c ;;
  file <- downloadName c ;;
  Js.ret (text, file).

Fixpoint no_space (s : string) : bool :=
  match s with
  | EmptyString => true
  | String c r => (negb (Str.is_space c) && no_space r)%bool
  end.

Fixpoint all_space (s : string) : bool :=
  match s with
  | EmptyString => true
  | String c r => (Str.is_space c && all_space r)%bool
  end.

(** ** The screens *)

(** An event can be raised when its control is on the screen: a list entry
    is an element of [contacts]. *)
Definition raisable (e : Event) (st : State) : Prop :=
  match e with
  | SelectContact c => In c (contacts st)
  | _ => True
  end.

(** One step of the interface: a handler runs, the process button starts a
    flow, or a flow started in some render [st0] settles. *)
Inductive UiStep : State -> State -> Prop :=
| UiHandle e st : raisable e st -> UiStep st (handle e st)
| UiSubmit st st1 rq : clickProcess st = Some (st1, rq) -> UiStep st st1
| UiSettle st0 clk out st : UiStep st (processWithAI_resume st0 clk out st).

(** The states of the interface, from the render that follows the load of
    the store. *)
Inductive UiReachable : State -> Prop :=
| UiLoaded queued : UiReachable (setContacts (fun _ => queued) initialState)
| UiNext st st' : UiReachable st -> UiStep st st' -> UiReachable st'.


(** ** The client and the endpoint together *)

(** The HTTP response as [fetch] delivers it to the client when the handler
    answered with an error object. *)
Definition deliverError (r : HttpResponse) : FetchOutcome :=
  FetchResolved (mkResponse (status r) (Some (body r))).

(** The text that a list of recognition results contributes: the final
    results in their order, each followed by a space; a result that is not
    final contributes nothing. *)
Fixpoint finalText (results : list RecognitionResult) : string :=
  match results with
  | [] => EmptyString
  | r :: rest =>
      if res_isFinal r then res_transcript r ++ (" " ++ finalText rest)
      else finalText rest
  end.

(** What the calls made so far say about the recognizers: [start()] was
    only called on recognizers whose [onend] sees [isRecording] unset,
    [stop()] only on recognizers whose [onend] sees it set, the recognizer
    in the ref was created in a render with the present [isRecording], and
    there is a recognizer only where the browser has the speech API. *)
Definition RecorderInv (hasApi : bool) (r : Recorder) : Prop :=
  (forall i, In (Started i) (calls r) \/ In (StartThrew i) (calls r) ->
             nth_error (closures r) i = Some false) /\
  (forall i, In (Stopped i) (calls r) ->
             nth_error (closures r) i = Some true) /\
  (forall i, current r = Some i ->
             nth_error (closures r) i = Some (isRecording r)) /\
  (hasApi = false -> current r = None /\ speechSupported r = false).

(** In the detail view there is a current contact, and a current contact is
    an element of the list. *)
Definition DetailInv (st : State) : Prop :=
  (view st = DetailV -> currentContact st <> None) /\
  (forall c, currentContact st = Some c -> In c (contacts st)).

(** A model answer that wraps [body] in a [json] code fence. *)
Definition fence (body : string) : string :=
  "```json" ++ Str.nl ++ body ++ Str.nl ++ "```".

(** ** The avatars of the list *)

Definition avatarColors : list (string * string) :=
  [ ("#E8B4A8", "#D49888");
    ("#A8C5E8", "#88A5C8");
    ("#B8E8A8", "#98C888");
    ("#E8D4A8", "#C8B488");
    ("#D4A8E8", "#B488C8") ].

(** [avatarColors[idx % 5]]: [None] is [undefined], whose element [0]
    cannot be read. *)
Definition avatarColor (idx : nat) : option (string * string) :=
  nth_error avatarColors (idx mod 5).

(** ** More sample data *)

Module Demo.

Definition results : list RecognitionResult :=
  [ mkRecognitionResult "old" true;
    mkRecognitionResult "met ada" true;
    mkRecognitionResult "at the" false;
    mkRecognitionResult "at the booth" true ].

(** The component after the mount, a click that starts the recognizer and
    a click that stops. *)
Definition twoClicks : State * Recorder :=
  clickMic true true
    (clickMic true true (Sample.state, speechEffect true initialRecorder)).

Definition numberedName : Js.value :=
  Js.Obj [("name", Js.Num (Js.mkNumber true "42"))].

Definition spaced : Contact := Sample.blankContact 7 "  Ada   Lovelace ".

End Demo.

(** ** The answers of the endpoint, stated without the handler *)

(** The falsy values of JSON and [undefined]. *)
Definition Falsy (v : Js.value) : Prop :=
  v = Js.Undefined \/ v = Js.Null \/ v = Js.Bool false \/
  v = Js.Str EmptyString \/
  exists n, v = Js.Num n /\ Js.nonzero n = false.

(** The request holds no transcript: whatever its body is, there is nothing
    under [transcript]. A request without a body that can be read holds
    none. *)
Definition transcriptAbsent (req : Request) : Prop :=
  forall v, req_json req = Some v -> prop v "transcript" = Js.Undefined.

(** The body of the request was read, and it is not [null]. *)
Definition bodyRead (req : Request) (v : Js.value) : Prop :=
  req_json req = Some v /\ v <> Js.Null /\ v <> Js.Undefined.

(** The body of the request was read, it is not [null], and its transcript
    is absent or falsy. *)
Definition transcriptNotProvided (req : Request) : Prop :=
  exists v, bodyRead req v /\ Falsy (prop v "transcript").

(** A value that a template literal can turn into a string. *)
Definition Stringable (v : Js.value) : Prop :=
  exists s, Js.toString v = inr s.

(** The hint of field [k] of the draft [f] can be written. *)
Definition Hintable (f : Js.value) (k : string) : Prop :=
  Falsy (prop f k) \/ Stringable (prop f k).

(** The prompt can be written from the transcript [t] and the draft [f]:
    the draft is neither [null] nor missing, and the transcript and the four
    hints can be turned into strings. *)
Definition PromptWritable (t f : Js.value) : Prop :=
  Stringable t /\ f <> Js.Null /\ f <> Js.Undefined /\
  Hintable f "name" /\ Hintable f "company" /\ Hintable f "role" /\
  Hintable f "meetingContext".

(** [b] is the first block of type [text]. *)
Inductive FirstText : list Block -> Block -> Prop :=
| FirstHere b rest :
    block_type b = "text" -> FirstText (b :: rest) b
| FirstAfter x rest b :
    block_type x <> "text" -> FirstText rest b -> FirstText (x :: rest) b.

(** No block is of type [text]. *)
Definition NoText (blocks : list Block) : Prop :=
  Forall (fun b => block_type b <> "text") blocks.

(** [s] without one line feed at its head. *)
Definition afterLineFeed (s : string) : string :=
  match s with
  | String c r => if Ascii.eqb c "010" then r else s
  | EmptyString => EmptyString
  end.

(** [out] is [s] without the occurrences of [marker], read from the left,
    each taken with one line feed that follows it. *)
Inductive Stripped (marker : string) : string -> string -> Prop :=
| StrippedEnd : Stripped marker EmptyString EmptyString
| StrippedMarker rest out :
    Stripped marker (afterLineFeed rest) out ->
    Stripped marker (marker ++ rest) out
| StrippedKeep c r out :
    String.prefix marker (String c r) = false ->
    Stripped marker r out ->
    Stripped marker (String c r) (String c out).

(** [out] is the text of the model without its code fences, opening fences
    of [json] first, and without the white space around it. *)
Definition CleanedTo (text out : string) : Prop :=
  exists a b,
    Stripped "```json" text a /\ Stripped "```" a b /\ out = Str.trim b.

Section EndpointAnswers.

Variable JSON_parse : string -> option Js.value.

(** The failures of processing, told from the request, from the upstream
    model and from the calls that were made: the body cannot be read or is
    [null]; the transcript is there but the prompt cannot be written; the
    call that was made throws; its message has no text; its first text,
    cleaned, is not JSON. *)
Inductive HandlerFailure (req : Request) (anthropic : Upstream)
  (calls : list CreateParams) : Prop :=
| FailUnreadable :
    req_json req = None -> HandlerFailure req anthropic calls
| FailNullBody v :
    req_json req = Some v -> v = Js.Null \/ v = Js.Undefined ->
    HandlerFailure req anthropic calls
| FailPrompt v :
    bodyRead req v -> ~ Falsy (prop v "transcript") ->
    ~ PromptWritable (prop v "transcript") (prop v "formData") ->
    HandlerFailure req anthropic calls
| FailUpstream p e :
    calls = [p] -> anthropic p = inl e ->
    HandlerFailure req anthropic calls
| FailNoText p m :
    calls = [p] -> anthropic p = inr m -> NoText (content m) ->
    HandlerFailure req anthropic calls
| FailParse p m b out :
    calls = [p] -> anthropic p = inr m -> FirstText (content m) b ->
    CleanedTo (block_text b) out -> JSON_parse out = None ->
    HandlerFailure req anthropic calls.

(** The call that was made gave a message whose first text, cleaned,
    parses to [parsed]. *)
Definition HandlerSuccess (anthropic : Upstream)
  (calls : list CreateParams) (parsed : Js.value) : Prop :=
  exists p m b out,
    calls = [p] /\ anthropic p = inr m /\ FirstText (content m) b /\
    CleanedTo (block_text b) out /\ JSON_parse out = Some parsed.

End EndpointAnswers.

Module Bodies.

(** A request whose body is the JSON text [null]. *)
Definition nullBody : Request := mkRequest (Some Js.Null).

(** A request without a body that can be read as JSON. *)
Definition unreadable : Request := mkRequest None.

(** A request whose transcript is the number zero. *)
Definition zeroTranscript : Request :=
  mkRequest (Some (Js.Obj [ ("transcript", Js.Num (Js.mkNumber false "0"));
                            ("formData", formValue emptyForm) ])).

End Bodies.

(** * Properties *)

(** ** The creation flow *)

Lemma commitContact_contacts c st :
  contacts (commitContact c st) = c :: contacts st.
Proof. reflexivity. Qed.

Lemma resume_createdContact st0 clk out st :
  processWithAI_resume st0 clk out st
  = setIsProcessing false (commitContact (createdContact st0 clk out) st).
Proof.
  unfold processWithAI_resume, createdContact.
  destruct (extraction st0 clk out); reflexivity.
Qed.

Lemma processWithAI_nonblank st clk out :
  blank (transcript st) = false ->
  processWithAI st clk out
  = processWithAI_resume st clk out (setIsProcessing true st).
Proof.
  intros Hb. unfold processWithAI, processWithAI_begin. now rewrite Hb.
Qed.

Lemma processWithAI_blank st clk out :
  blank (transcript st) = true -> processWithAI st clk out = st.
Proof.
  intros Hb. unfold processWithAI, processWithAI_begin. now rewrite Hb.
Qed.

(** The request is sent exactly when the transcript is not blank. *)
Lemma begin_sends_iff (st : State) :
  (exists st1 rq, processWithAI_begin st = Some (st1, rq))
  <-> blank (transcript st) = false.
Proof.
  unfold processWithAI_begin. destruct (blank (transcript st)); split.
  - intros (st1 & rq & H). discriminate H.
  - discriminate.
  - reflexivity.
  - intros _. eauto.
Qed.

Lemma begin_sent_nonblank (st st1 : State) (rq : FetchRequest) :
  processWithAI_begin st = Some (st1, rq) -> blank (transcript st) = false.
Proof. intros H. apply begin_sends_iff. eauto. Qed.

(** The closure of the handler reads three cells of its render only. *)
Lemma createdContact_closure a b clk out :
  formData a = formData b ->
  photoDraft a = photoDraft b ->
  transcript a = transcript b ->
  createdContact a clk out = createdContact b clk out.
Proof.
  intros Hf Hp Ht.
  unfold createdContact, extraction, newContact, fallbackContact.
  now rewrite Hf, Hp, Ht.
Qed.

Lemma handle_isProcessing (e : Event) (st : State) :
  isProcessing (handle e st) = isProcessing st.
Proof.
  destruct e; simpl; try reflexivity.
  - destruct (Str.is_empty finalTranscript); reflexivity.
  - destruct recording; reflexivity.
  - destruct (currentContact st); reflexivity.
Qed.

Lemma handleAll_isProcessing (es : list Event) (st : State) :
  isProcessing (handleAll es st) = isProcessing st.
Proof.
  revert st. induction es as [|e es IH]; intros st; simpl; [reflexivity|].
  unfold handleAll in *. simpl. now rewrite IH, handle_isProcessing.
Qed.

Lemma processing_disables_click (st : State) :
  isProcessing st = true -> processDisabled st = true /\ clickProcess st = None.
Proof.
  intros Hp. unfold clickProcess, processDisabled. rewrite Hp.
  now rewrite orb_true_r.
Qed.

(** C1. A run of the creation flow on a transcript that is not blank sets
    the processing flag and sends one request. Whatever the user and the
    callbacks do while the call is in flight, the flag stays set and a
    click on the process button runs nothing. When the call settles, the
    flow takes exactly one of the two paths: it adds exactly one contact,
    at the head of the list, makes it the current contact, shows the detail
    view and clears the processing flag; the contact is the one the [try]
    block built when that block did not throw, and the fallback contact
    when it did. *)
Theorem processWithAI_resolves_once (st : State) (clk : Clock)
  (out : FetchOutcome) (events : list Event) :
  blank (transcript st) = false ->
  exists st1 rq,
    processWithAI_begin st = Some (st1, rq) /\
    processWithAI st clk out = processWithAI_resume st clk out st1 /\
    let mid := handleAll events st1 in
    let c := createdContact st clk out in
    let st' := processWithAI_resume st clk out mid in
    isProcessing mid = true /\
    processDisabled mid = true /\
    clickProcess mid = None /\
    match extraction st clk out with
    | inr built => path_taken st clk out = SuccessPath /\ c = built
    | inl _ =>
        path_taken st clk out = FallbackPath /\ c = fallbackContact st clk
    end /\
    contacts st' = c :: contacts mid /\
    length (contacts st') = S (length (contacts mid)) /\
    currentContact st' = Some c /\
    view st' = DetailV /\
    isProcessing st' = false.
Proof.
  intros Hb.
  exists (setIsProcessing true st),
    (mkFetchRequest (transcript st) (formData st)).
  split; [unfold processWithAI_begin; now rewrite Hb|].
  split; [now apply processWithAI_nonblank|].
  intros mid c st'.
  assert (Hmid : isProcessing mid = true).
  { subst mid. now rewrite handleAll_isProcessing. }
  destruct (processing_disables_click mid Hmid) as [Hdis Hclick].
  split; [exact Hmid|]. split; [exact Hdis|]. split; [exact Hclick|].
  split.
  - subst c. unfold path_taken, createdContact.
    destruct (extraction st clk out); split; reflexivity.
  - subst st' c. rewrite resume_createdContact. repeat split.
Qed.

Lemma or_draft_precedence (v : Js.value) (draft : string) :
  nullableString v = true ->
  Js.or (Js.or v (Js.Str draft)) Js.Undefined
  = fieldOf (precedence (match v with Js.Str s => Some s | _ => None end)
               draft).
Proof.
  intros Hv.
  destruct v as [| |b|n|s|items|props]; try discriminate Hv;
    try (destruct draft; reflexivity).
  destruct s; [destruct draft|]; reflexivity.
Qed.

Lemma or_name_precedence (v : Js.value) (draft placeholder : string) :
  nullableString v = true ->
  Js.or (Js.or v (Js.Str draft)) (Js.Str placeholder)
  = Js.Str (orPlaceholder
              (precedence (match v with Js.Str s => Some s | _ => None end)
                 draft)
              placeholder).
Proof.
  intros Hv.
  destruct v as [| |b|n|s|items|props]; try discriminate Hv;
    try (destruct draft; reflexivity).
  destruct s; [destruct draft|]; reflexivity.
Qed.

(** A property read succeeds on every value but [undefined] and [null]. *)
Lemma get_prop (v : Js.value) (k : string) :
  v <> Js.Undefined -> v <> Js.Null -> Js.get v k = inr (prop v k).
Proof.
  intros Hu Hn. destruct v; try reflexivity; congruence.
Qed.

Lemma newContact_defined st clk parsed :
  parsed <> Js.Undefined -> parsed <> Js.Null ->
  newContact st clk parsed =
  inr {|
    id := now clk;
    name := Js.or (Js.or (prop parsed "name") (Js.Str (fd_name (formData st))))
              (Js.Str "Unknown Contact");
    company := Js.or (Js.or (prop parsed "company")
                        (Js.Str (fd_company (formData st)))) Js.Undefined;
    role := Js.or (Js.or (prop parsed "role")
                     (Js.Str (fd_role (formData st)))) Js.Undefined;
    email := Js.or (Js.or (prop parsed "email")
                      (Js.Str (fd_email (formData st)))) Js.Undefined;
    phone := Js.or (Js.or (prop parsed "phone")
                      (Js.Str (fd_phone (formData st)))) Js.Undefined;
    location := Js.or (Js.or (prop parsed "location")
                         (Js.Str (fd_location (formData st)))) Js.Undefined;
    photo := photo_or_undefined (photoDraft st);
    summary := prop parsed "summary";
    keyTopics := prop parsed "keyTopics";
    actionItems := prop parsed "actionItems";
    followUpSuggestion := prop parsed "followUpSuggestion";
    rawNotes := transcript st;
    meetingContext := Js.or (Js.Str (fd_meetingContext (formData st)))
                        Js.Undefined;
    createdAt := iso clk
  |}.
Proof.
  intros Hu Hn. unfold newContact.
  rewrite !(get_prop parsed _ Hu Hn). reflexivity.
Qed.

Lemma newContact_nullish st clk parsed :
  parsed = Js.Undefined \/ parsed = Js.Null ->
  exists e, newContact st clk parsed = inl e.
Proof.
  intros [-> | ->]; eexists; reflexivity.
Qed.

Lemma extraction_resolved st clk r parsed :
  resp_ok r = true -> resp_json r = Some parsed ->
  extraction st clk (FetchResolved r) = newContact st clk parsed.
Proof.
  intros Hok Hj. unfold extraction. simpl. now rewrite Hok, Hj.
Qed.

Lemma extraction_failed st clk out :
  ExtractionFailed out -> exists e, extraction st clk out = inl e.
Proof.
  intros [ | r Hok | r Hj | r Hj]; unfold extraction; simpl.
  - eexists; reflexivity.
  - rewrite Hok. eexists; reflexivity.
  - destruct (resp_ok r); simpl; [rewrite Hj|]; eexists; reflexivity.
  - destruct (resp_ok r); simpl; [rewrite Hj|]; eexists; reflexivity.
Qed.

Ltac field_facts H :=
  unfold wellTypedFields, overlappingFields in H;
  repeat match type of H with
         | Forall _ (_ :: _) =>
             let Hk := fresh "Hk" in
             let Hr := fresh "Hr" in
             apply Forall_cons_iff in H; destruct H as [Hk Hr];
             rename Hr into H
         end.

(** C2. When the flow sends its request and the extraction call succeeds
    (the response is ok and its body is JSON) with string fields that are
    strings, [null] or missing, each of the six overlapping fields of the
    contact that is created follows the precedence rule: the extraction
    result if it is present and non-empty, otherwise the draft value if it
    is non-empty, otherwise absent; the name is a placeholder instead of
    being absent. *)
Theorem success_follows_precedence (st st1 : State) (rq : FetchRequest)
  (clk : Clock) (r : Response) (parsed : Js.value) :
  processWithAI_begin st = Some (st1, rq) ->
  resp_ok r = true ->
  resp_json r = Some parsed ->
  wellTypedFields parsed ->
  let out := FetchResolved r in
  let c := createdContact st clk out in
  let fd := formData st in
  contacts (processWithAI st clk out) = c :: contacts st /\
  name c = Js.Str (orPlaceholder
                     (precedence (extractedField parsed "name") (fd_name fd))
                     (placeholderName (path_taken st clk out))) /\
  company c
  = fieldOf (precedence (extractedField parsed "company") (fd_company fd)) /\
  role c
  = fieldOf (precedence (extractedField parsed "role") (fd_role fd)) /\
  email c
  = fieldOf (precedence (extractedField parsed "email") (fd_email fd)) /\
  phone c
  = fieldOf (precedence (extractedField parsed "phone") (fd_phone fd)) /\
  location c
  = fieldOf (precedence (extractedField parsed "location") (fd_location fd)).
Proof.
  intros Hsent Hok Hj Hty out c fd.
  pose proof (begin_sent_nonblank st st1 rq Hsent) as Hb. split.
  - rewrite (processWithAI_nonblank _ _ _ Hb), resume_createdContact.
    reflexivity.
  - subst c out. unfold createdContact, path_taken.
    rewrite (extraction_resolved st clk r parsed Hok Hj).
    field_facts Hty. unfold extractedField.
    assert (Hcases : (parsed = Js.Undefined \/ parsed = Js.Null)
                     \/ (parsed <> Js.Undefined /\ parsed <> Js.Null)).
    { destruct parsed; auto; right; split; discriminate. }
    destruct Hcases as [Hnull | [Hu Hn]].
    + assert (Hprop : forall k, prop parsed k = Js.Undefined).
      { intros k. destruct Hnull as [-> | ->]; reflexivity. }
      destruct (newContact_nullish st clk parsed Hnull) as [e ->].
      rewrite !Hprop. unfold fallbackContact. simpl. subst fd.
      repeat split;
        match goal with
        | |- context [fd_name] => destruct (fd_name (formData st))
        | |- context [fd_company] => destruct (fd_company (formData st))
        | |- context [fd_role] => destruct (fd_role (formData st))
        | |- context [fd_email] => destruct (fd_email (formData st))
        | |- context [fd_phone] => destruct (fd_phone (formData st))
        | |- context [fd_location] => destruct (fd_location (formData st))
        end; reflexivity.
    + rewrite (newContact_defined st clk parsed Hu Hn). simpl. subst fd.
      repeat split;
        first [ now apply or_name_precedence | now apply or_draft_precedence ].
Qed.

(** C3. When the flow sends its request and the extraction call fails (the
    network, a status outside 200-299, a body that is not JSON, or the body
    [null]), the flow ends as it does on success, in the detail view of a
    new contact with the processing flag cleared, and that contact is built
    from the draft and the transcript: the fixed summary, no topics, no
    action items, the default follow-up, the draft name or [New Contact],
    and the transcript as raw notes. *)
Theorem failure_builds_fallback (st st1 : State) (rq : FetchRequest)
  (clk : Clock) (out : FetchOutcome) :
  processWithAI_begin st = Some (st1, rq) ->
  ExtractionFailed out ->
  let st' := processWithAI st clk out in
  let fd := formData st in
  exists c,
    contacts st' = c :: contacts st /\
    currentContact st' = Some c /\
    view st' = DetailV /\
    isProcessing st' = false /\
    path_taken st clk out = FallbackPath /\
    c = fallbackContact st clk /\
    summary c = Js.Str "Notes captured - AI summary unavailable" /\
    keyTopics c = Js.Arr [] /\
    actionItems c = Js.Arr [] /\
    followUpSuggestion c = Js.Str "Review notes and follow up as appropriate" /\
    name c = Js.Str (if Str.is_empty (fd_name fd) then "New Contact"
                     else fd_name fd) /\
    company c = fieldOf (precedence None (fd_company fd)) /\
    role c = fieldOf (precedence None (fd_role fd)) /\
    email c = fieldOf (precedence None (fd_email fd)) /\
    phone c = fieldOf (precedence None (fd_phone fd)) /\
    location c = fieldOf (precedence None (fd_location fd)) /\
    meetingContext c = fieldOf (precedence None (fd_meetingContext fd)) /\
    rawNotes c = transcript st.
Proof.
  intros Hsent Hfail st' fd.
  pose proof (begin_sent_nonblank st st1 rq Hsent) as Hb.
  destruct (extraction_failed st clk out Hfail) as [e He].
  exists (fallbackContact st clk). subst st'.
  rewrite (processWithAI_nonblank _ _ _ Hb).
  unfold processWithAI_resume, path_taken. rewrite He. subst fd.
  repeat split; simpl;
    match goal with
    | |- context [fd_name] => destruct (fd_name (formData st))
    | |- context [fd_company] => destruct (fd_company (formData st))
    | |- context [fd_role] => destruct (fd_role (formData st))
    | |- context [fd_email] => destruct (fd_email (formData st))
    | |- context [fd_phone] => destruct (fd_phone (formData st))
    | |- context [fd_location] => destruct (fd_location (formData st))
    | |- context [fd_meetingContext] =>
        destruct (fd_meetingContext (formData st))
    end; reflexivity.
Qed.

(** ** Deletion *)

Lemma deleteContact_contacts i st :
  contacts (deleteContact i st)
  = filter (fun c => negb (Z.eqb (id c) i)) (contacts st).
Proof. reflexivity. Qed.

Lemma filter_other_ids (i : Z) (l : list Contact) :
  ~ In i (map id l) -> filter (fun c => negb (Z.eqb (id c) i)) l = l.
Proof.
  induction l as [|a l IH]; intros Hnot; simpl in *; [reflexivity|].
  destruct (Z.eqb_spec (id a) i) as [Heq | Hne]; simpl.
  - exfalso. apply Hnot. now left.
  - f_equal. apply IH. intros Hin. apply Hnot. now right.
Qed.

(** C4, amended. In a contact list whose ids are pairwise distinct,
    deleting by the id of a contact of the list removes exactly that
    contact, leaves all others in their order, returns the view to the list
    and clears the current contact. *)
Theorem deleteContact_removes_exactly (st : State) (c : Contact) :
  NoDup (map id (contacts st)) ->
  In c (contacts st) ->
  let st' := deleteContact (id c) st in
  (exists before after : list Contact,
      contacts st = (before ++ c :: after)%list /\
      contacts st' = (before ++ after)%list) /\
  view st' = ListV /\
  currentContact st' = None.
Proof.
  intros Hnd Hin st'. split; [|split; reflexivity].
  destruct (in_split c (contacts st) Hin) as (before & after & Hsplit).
  exists before, after. split; [exact Hsplit|].
  subst st'. rewrite deleteContact_contacts, Hsplit.
  rewrite Hsplit, map_app in Hnd. simpl in Hnd.
  pose proof (NoDup_remove_2 _ _ _ Hnd) as Hnot.
  rewrite filter_app. simpl. rewrite Z.eqb_refl. simpl.
  rewrite !filter_other_ids; [reflexivity| |];
    intros Hi; apply Hnot, in_or_app; [now right | now left].
Qed.

(** ** Contact ids *)

Lemma createdContact_id st clk out : id (createdContact st clk out) = now clk.
Proof.
  unfold createdContact, extraction.
  destruct out as [|r]; simpl; [reflexivity|].
  destruct (resp_ok r); simpl; [|reflexivity].
  destruct (resp_json r) as [parsed|]; simpl; [|reflexivity].
  destruct parsed; reflexivity.
Qed.

(** C10. The id of a created contact is the millisecond reading of the
    clock, so two contacts created on equal readings have equal ids; and
    deleting by an id removes every contact of the list that has this id,
    however many there are, and no other. *)
Theorem ids_from_clock_delete_all :
  (forall st clk out, id (createdContact st clk out) = now clk) /\
  (forall st1 st2 clk1 clk2 out1 out2,
      now clk1 = now clk2 ->
      id (createdContact st1 clk1 out1) = id (createdContact st2 clk2 out2)) /\
  (forall i st c,
      In c (contacts (deleteContact i st))
      <-> In c (contacts st) /\ id c <> i) /\
  (forall i st,
      length (contacts (deleteContact i st))
      + length (filter (fun c => Z.eqb (id c) i) (contacts st))
      = length (contacts st))%nat.
Proof.
  split; [|split; [|split]].
  - apply createdContact_id.
  - intros. rewrite !createdContact_id. assumption.
  - intros i st c. rewrite deleteContact_contacts, filter_In.
    rewrite negb_true_iff, Z.eqb_neq. reflexivity.
  - intros i st. rewrite deleteContact_contacts.
    induction (contacts st) as [|a l IH]; simpl; [reflexivity|].
    destruct (Z.eqb (id a) i); simpl; lia.
Qed.

(** ** The vCard of a contact with a name only *)

Lemma append_nil_r (s : string) : s ++ EmptyString = s.
Proof. induction s; simpl; congruence. Qed.

Lemma append_snoc (a : string) (c : ascii) (b : string) :
  (a ++ String c EmptyString) ++ b = a ++ String c b.
Proof. induction a; simpl; congruence. Qed.

Lemma split_lines_from_line (a cur rest : string) :
  Str.one_line a = true ->
  Str.split_lines_from cur (a ++ Str.nl ++ rest)
  = (cur ++ a) :: Str.split_lines_from EmptyString rest.
Proof.
  revert cur. induction a as [|ch a IH]; intros cur Hone; simpl in *.
  - now rewrite append_nil_r.
  - apply andb_true_iff in Hone. destruct Hone as [Hch Ha].
    apply negb_true_iff in Hch. rewrite Hch, IH by assumption.
    now rewrite append_snoc.
Qed.

Lemma split_lines_from_last (a cur : string) :
  Str.one_line a = true -> Str.split_lines_from cur a = [cur ++ a].
Proof.
  revert cur. induction a as [|ch a IH]; intros cur Hone; simpl in *.
  - now rewrite append_nil_r.
  - apply andb_true_iff in Hone. destruct Hone as [Hch Ha].
    apply negb_true_iff in Hch. rewrite Hch, IH by assumption.
    now rewrite append_snoc.
Qed.

(** Splitting at the line feeds undoes the joining of single lines. *)
Lemma split_unlines (l : string) (ls : list string) :
  Forall (fun x => Str.one_line x = true) (l :: ls) ->
  Str.split_lines (Str.unlines (l :: ls)) = l :: ls.
Proof.
  revert l. induction ls as [|l' ls IH]; intros l Hall.
  - inversion Hall; subst. unfold Str.split_lines, Str.unlines. simpl.
    now rewrite split_lines_from_last.
  - inversion Hall as [|? ? Hl Hrest]; subst.
    unfold Str.split_lines, Str.unlines in *.
    change (String.concat Str.nl (l :: l' :: ls))
      with (l ++ Str.nl ++ String.concat Str.nl (l' :: ls)).
    rewrite split_lines_from_line by assumption.
    simpl. f_equal. now apply IH.
Qed.

Lemma one_line_append (a b : string) :
  Str.one_line a = true -> Str.one_line b = true ->
  Str.one_line (a ++ b) = true.
Proof.
  intros Ha Hb. induction a as [|ch a IH]; simpl in *; [assumption|].
  apply andb_true_iff in Ha. destruct Ha as [Hch Ha].
  now rewrite Hch, IH.
Qed.

(** C5, what the code does. The card of a contact whose only present
    attribute is its name (a string without line feed) has ten lines: every
    absent field leaves an empty line between the [FN] line and the [NOTE]
    line. It is not the five-line document that omits the absent fields. *)
Theorem generateVCard_nameOnly_empty_lines (c : Contact) (n : string) :
  nameOnly c n ->
  Str.one_line n = true ->
  exists text : string,
    generateVCard c = inr text /\
    Str.split_lines text
    = [ "BEGIN:VCARD"; "VERSION:3.0"; "FN:" ++ n;
        EmptyString; EmptyString; EmptyString; EmptyString; EmptyString;
        "NOTE: | Met: Conference"; "END:VCARD" ] /\
    Str.split_lines text <> nameOnlyLines n.
Proof.
  intros (Hn & Hco & Hro & Hem & Hph & Hlo & Hsu & Hme) Hone.
  eexists. split; [|split].
  - unfold generateVCard, optionalLine.
    rewrite Hn, Hco, Hro, Hem, Hph, Hlo, Hsu, Hme. simpl. reflexivity.
  - apply split_unlines.
    repeat (apply Forall_cons; [try reflexivity|]); [|apply Forall_nil].
    apply (one_line_append "FN:" n); [reflexivity|assumption].
  - rewrite split_unlines.
    + unfold nameOnlyLines. intros Heq. discriminate Heq.
    + repeat (apply Forall_cons; [try reflexivity|]); [|apply Forall_nil].
      apply (one_line_append "FN:" n); [reflexivity|assumption].
Qed.

(** ** The first load-and-render cycle *)

(** C6, what the code does. When the store holds a list that is not empty,
    the save effect of the first render, which still sees the empty initial
    list, passes its guard because stored data exists, and writes the empty
    list over the stored one; the stored list is by then only queued as a
    state update, and a load from the store at that point gives the empty
    list. *)
Theorem firstCycle_overwrites_stored (stored : list Contact) :
  stored <> [] ->
  let sto := mkStorage true (Some stored) in
  saveEffect (contacts initialState) sto = saveToStorage [] sto /\
  firstCycle sto = (stored, mkStorage true (Some [])) /\
  loadFromStorage (snd (firstCycle sto)) = [].
Proof.
  intros Hne sto.
  assert (Hguard : (0 <? length (loadFromStorage sto))%nat = true).
  { subst sto. simpl. destruct stored as [|c rest]; [contradiction|].
    reflexivity. }
  assert (Hsave : saveEffect (contacts initialState) sto = saveToStorage [] sto).
  { unfold saveEffect. rewrite Hguard. now rewrite orb_true_r. }
  split; [exact Hsave|].
  unfold firstCycle. rewrite Hsave. split; reflexivity.
Qed.

(** The second render writes the queued list back. *)
Lemma secondCycle_writes_back (stored : list Contact) :
  stored <> [] ->
  let (queued, sto) := firstCycle (mkStorage true (Some stored)) in
  snd (secondCycle queued sto) = mkStorage true (Some stored).
Proof.
  intros Hne. destruct stored as [|c rest]; [contradiction|]. reflexivity.
Qed.

(** The guard prevents the write only when nothing is stored. *)
Lemma firstCycle_empty_store (w : bool) :
  firstCycle (mkStorage w None) = ([], mkStorage w None)
  /\ firstCycle (mkStorage w (Some [])) = ([], mkStorage w (Some [])).
Proof. destruct w; split; reflexivity. Qed.

(** ** Sequences of creations *)

Lemma create_contacts (st : State) (cr : Creation) :
  blank (cr_transcript cr) = false ->
  contacts (create st cr) = contactOf cr :: contacts st.
Proof.
  intros Hb. unfold create.
  rewrite processWithAI_nonblank by exact Hb.
  rewrite resume_createdContact.
  change (createdContact (fillDraft cr st) (cr_clock cr) (cr_outcome cr)
          :: contacts st = contactOf cr :: contacts st).
  apply (f_equal (fun x => x :: contacts st)).
  unfold contactOf. apply createdContact_closure; reflexivity.
Qed.

Lemma createAll_contacts (crs : list Creation) (st : State) :
  Forall (fun cr => blank (cr_transcript cr) = false) crs ->
  contacts (createAll crs st)
  = (rev (map contactOf crs) ++ contacts st)%list.
Proof.
  revert st. induction crs as [|cr crs IH]; intros st Hall; simpl.
  - reflexivity.
  - inversion Hall as [|? ? Hcr Hrest]; subst.
    unfold createAll in *. simpl. rewrite IH by assumption.
    rewrite create_contacts by assumption.
    now rewrite <- app_assoc.
Qed.

(** C7. Starting from the empty list, N completed creations, each on a
    transcript that is not blank and ending on either path, give a list of
    length N that holds the created contacts newest first: the list is the
    reverse of the order of creation, and the contact created last is at
    index 0. *)
Theorem createAll_newest_first (crs : list Creation) :
  Forall (fun cr => blank (cr_transcript cr) = false) crs ->
  let l := contacts (createAll crs initialState) in
  l = rev (map contactOf crs) /\
  length l = length crs /\
  (forall earlier last,
      crs = (earlier ++ [last])%list ->
      nth_error l 0 = Some (contactOf last)) /\
  (forall i cr,
      nth_error crs i = Some cr ->
      nth_error l (length crs - 1 - i) = Some (contactOf cr)).
Proof.
  intros Hall l.
  assert (Hl : l = rev (map contactOf crs)).
  { subst l. rewrite createAll_contacts by assumption.
    simpl. now rewrite app_nil_r. }
  split; [exact Hl|]. split; [|split].
  - rewrite Hl. now rewrite length_rev, length_map.
  - intros earlier last ->. rewrite Hl, map_app, rev_app_distr. reflexivity.
  - intros i cr Hi. rewrite Hl.
    assert (Hlt : (i < length crs)%nat).
    { apply nth_error_Some. congruence. }
    rewrite nth_error_rev, length_map.
    destruct (Nat.ltb_spec (length crs - 1 - i) (length crs)) as [_ | Hge];
      [|lia].
    replace (length crs - S (length crs - 1 - i))%nat with i by lia.
    now rewrite nth_error_map, Hi.
Qed.

(** ** The extraction endpoint *)

Lemma readRequest_unreadable (req : Request) :
  req_json req = None -> exists e, readRequest req = inl e.
Proof.
  intros H. unfold readRequest. rewrite H. eexists; reflexivity.
Qed.

Lemma readRequest_null (req : Request) (v : Js.value) :
  req_json req = Some v -> v = Js.Null \/ v = Js.Undefined ->
  exists e, readRequest req = inl e.
Proof.
  intros H [-> | ->]; unfold readRequest; rewrite H; eexists; reflexivity.
Qed.

Lemma readRequest_value (req : Request) (v : Js.value) :
  req_json req = Some v -> v <> Js.Null -> v <> Js.Undefined ->
  readRequest req = inr (prop v "transcript", prop v "formData").
Proof.
  intros H Hn Hu. unfold readRequest. rewrite H. simpl.
  rewrite !(get_prop v _ Hu Hn). reflexivity.
Qed.

(** Occurrence of a text in another. *)

Lemma prefix_append (x b : string) : String.prefix x (x ++ b) = true.
Proof.
  induction x as [|c x IH]; simpl.
  - destruct b; reflexivity.
  - destruct (ascii_dec c c) as [_ | Hne]; [exact IH | now elim Hne].
Qed.

Lemma includes_prefix (x s : string) :
  String.prefix x s = true -> Str.includes x s = true.
Proof.
  intros H. destruct s as [|c r]; [exact H|].
  change (Str.includes x (String c r))
    with (String.prefix x (String c r) || Str.includes x r)%bool.
  now rewrite H.
Qed.

Lemma includes_append_l (x a s : string) :
  Str.includes x s = true -> Str.includes x (a ++ s) = true.
Proof.
  intros H. induction a as [|c a IH]; [exact H|].
  change (Str.includes x (String c a ++ s))
    with (String.prefix x (String c (a ++ s)) || Str.includes x (a ++ s))%bool.
  rewrite IH. apply orb_true_r.
Qed.

(** A line of a template occurs in its text. *)
Lemma includes_unlines (x : string) (ls : list string) :
  In x ls -> Str.includes x (Str.unlines ls) = true.
Proof.
  unfold Str.unlines. induction ls as [|y ls IH]; intros Hin; [destruct Hin|].
  destruct ls as [|z ls].
  - destruct Hin as [-> | []]. simpl.
    rewrite <- (append_nil_r x) at 2. apply includes_prefix, prefix_append.
  - change (String.concat Str.nl (y :: z :: ls))
      with (y ++ Str.nl ++ String.concat Str.nl (z :: ls)).
    destruct Hin as [-> | Hin].
    + apply includes_prefix, prefix_append.
    + apply includes_append_l, includes_append_l, IH, Hin.
Qed.

Section EndpointFacts.

Variable JSON_parse : string -> option Js.value.

Lemma POST_failure (req : Request) (anthropic : Upstream) :
  ProcessingFailure JSON_parse req anthropic ->
  fst (POST JSON_parse req anthropic)
  = mkHttpResponse 500 (errorBody "Failed to process with AI").
Proof.
  intros Hfail. unfold POST, tryBlock.
  destruct Hfail as [Hnone | v Hv Hnull | t f e Hr Ht Hp
                    | t f prompt e Hr Ht Hp Hup
                    | t f prompt m Hr Ht Hp Hup Hfind
                    | t f prompt m b Hr Ht Hp Hup Hfind Hparse].
  - destruct (readRequest_unreadable req Hnone) as [e ->]. reflexivity.
  - destruct (readRequest_null req v Hv Hnull) as [e ->]. reflexivity.
  - rewrite Hr, Ht, Hp. reflexivity.
  - rewrite Hr, Ht, Hp. unfold afterCall. rewrite Hup. reflexivity.
  - rewrite Hr, Ht, Hp. unfold afterCall. rewrite Hup. simpl.
    rewrite Hfind. reflexivity.
  - rewrite Hr, Ht, Hp. unfold afterCall. rewrite Hup. simpl.
    rewrite Hfind. simpl. rewrite Hparse. reflexivity.
Qed.

Lemma POST_calls (req : Request) (anthropic : Upstream) :
  (length (snd (POST JSON_parse req anthropic)) <= 1)%nat.
Proof.
  unfold POST, tryBlock.
  destruct (readRequest req) as [e | [t f]]; simpl; [lia|].
  destruct (Js.truthy t); simpl; [|lia].
  destruct (buildPrompt t f); simpl; lia.
Qed.

Lemma hintLine_string (label : string) (fd : FormData) (k value : string) :
  Js.lookup k
    [ ("name", Js.Str (fd_name fd)); ("company", Js.Str (fd_company fd));
      ("role", Js.Str (fd_role fd)); ("email", Js.Str (fd_email fd));
      ("phone", Js.Str (fd_phone fd)); ("location", Js.Str (fd_location fd));
      ("meetingContext", Js.Str (fd_meetingContext fd)) ] = Js.Str value ->
  hintLine label (formValue fd) k = inr (hintText label value).
Proof.
  intros Hk. unfold hintLine, formValue, hintText, Js.get, Js.bind, Js.ret.
  cbv beta iota. rewrite Hk.
  destruct value; reflexivity.
Qed.

Lemma buildPrompt_draft (t : string) (fd : FormData) :
  buildPrompt (Js.Str t) (formValue fd) = inr (promptFor t fd).
Proof.
  unfold buildPrompt.
  rewrite (hintLine_string _ fd "name" (fd_name fd)) by reflexivity.
  rewrite (hintLine_string _ fd "company" (fd_company fd)) by reflexivity.
  rewrite (hintLine_string _ fd "role" (fd_role fd)) by reflexivity.
  rewrite (hintLine_string _ fd "meetingContext" (fd_meetingContext fd))
    by reflexivity.
  reflexivity.
Qed.

(** C9, amended. For every request the client sends with a transcript that
    is not empty, the handler makes one upstream call, a single user message
    whose content is the fixed template with the transcript and, for each
    of name, company, role and meeting context, the hint of that field when
    it is not empty and nothing in its place when it is empty. The
    transcript and these hints occur in the prompt; the prompt does not
    depend on the email, phone and location of the draft. *)
Theorem POST_prompt (rq : FetchRequest) (anthropic : Upstream) :
  Str.is_empty (rq_transcript rq) = false ->
  let t := rq_transcript rq in
  let fd := rq_formData rq in
  let prompt := promptFor t fd in
  snd (POST JSON_parse (requestOf rq) anthropic)
  = [ mkCreateParams "claude-sonnet-4-20250514" 1024 [("user", prompt)] ] /\
  Str.includes t prompt = true /\
  Str.includes (hintText "Name provided: " (fd_name fd)) prompt = true /\
  Str.includes (hintText "Company provided: " (fd_company fd)) prompt = true /\
  Str.includes (hintText "Role provided: " (fd_role fd)) prompt = true /\
  Str.includes (hintText "Meeting context: " (fd_meetingContext fd)) prompt
  = true /\
  forall e p l : string, promptFor t (withContactDetails fd e p l) = prompt.
Proof.
  intros Ht t fd prompt. split.
  - unfold POST, tryBlock, requestOf, readRequest. simpl.
    rewrite Ht. simpl. rewrite buildPrompt_draft. reflexivity.
  - subst prompt. unfold promptFor.
    repeat split; try (apply includes_unlines; simpl; tauto).
Qed.

End EndpointFacts.

(** * The theorems at sample inputs *)

Lemma processWithAI_resolves_once_witness :
  blank (transcript Sample.state) = false /\
  exists st1,
    clickProcess (handleAll [CloseNew; OpenNew] st1) = None /\
    contacts (processWithAI_resume Sample.state Sample.clock FetchRejected
                (handleAll [CloseNew; OpenNew] st1))
    = [fallbackContact Sample.state Sample.clock].
Proof.
  split; [reflexivity|].
  destruct (processWithAI_resolves_once Sample.state Sample.clock
              FetchRejected [CloseNew; OpenNew] eq_refl)
    as (st1 & rq & Hbegin & _ & H).
  exists st1. cbv zeta in H.
  destruct H as (_ & _ & Hclick & _ & Hcontacts & _).
  split; [exact Hclick|].
  rewrite Hcontacts.
  injection Hbegin as <- _. reflexivity.
Defined.

Lemma success_follows_precedence_witness :
  processWithAI_begin Sample.state
  = Some (setIsProcessing true Sample.state,
          mkFetchRequest Sample.notes Sample.form) /\
  resp_ok Sample.okResponse = true /\
  wellTypedFields Sample.parsed /\
  email (createdContact Sample.state Sample.clock
           (FetchResolved Sample.okResponse))
  = fieldOf (precedence (extractedField Sample.parsed "email")
               (fd_email (formData Sample.state))).
Proof.
  assert (Hty : wellTypedFields Sample.parsed).
  { repeat constructor. }
  split; [reflexivity|]. split; [reflexivity|]. split; [exact Hty|].
  pose proof (success_follows_precedence Sample.state _ _ Sample.clock
                Sample.okResponse Sample.parsed eq_refl eq_refl eq_refl Hty)
    as H.
  cbv zeta in H. destruct H as (_ & _ & _ & _ & Hemail & _).
  exact Hemail.
Defined.

Lemma failure_builds_fallback_witness :
  processWithAI_begin Sample.state
  = Some (setIsProcessing true Sample.state,
          mkFetchRequest Sample.notes Sample.form) /\
  ExtractionFailed (FetchResolved (mkResponse 502 None)) /\
  exists c,
    contacts (processWithAI Sample.state Sample.clock
                (FetchResolved (mkResponse 502 None))) = [c] /\
    summary c = Js.Str "Notes captured - AI summary unavailable" /\
    name c = Js.Str "New Contact" /\
    meetingContext c = Js.Str "Conf Hall B" /\
    rawNotes c = Sample.notes.
Proof.
  assert (Hfail : ExtractionFailed (FetchResolved (mkResponse 502 None))).
  { apply NotOk. reflexivity. }
  split; [reflexivity|]. split; [exact Hfail|].
  pose proof (failure_builds_fallback Sample.state _ _ Sample.clock _
                eq_refl Hfail) as H.
  cbv zeta in H. destruct H as (c & Hc & _ & _ & _ & _ & Heq & Hs & _).
  exists c. split; [exact Hc|]. split; [exact Hs|].
  rewrite Heq. repeat split.
Defined.

Lemma deleteContact_removes_exactly_witness :
  NoDup (map id (contacts Sample.distinctIdState)) /\
  In Sample.ada (contacts Sample.distinctIdState) /\
  view (deleteContact (id Sample.ada) Sample.distinctIdState) = ListV /\
  exists before after,
    contacts Sample.distinctIdState = (before ++ Sample.ada :: after)%list /\
    contacts (deleteContact (id Sample.ada) Sample.distinctIdState)
    = (before ++ after)%list.
Proof.
  assert (Hnd : NoDup (map id (contacts Sample.distinctIdState))).
  { simpl. repeat constructor; simpl; intuition discriminate. }
  assert (Hin : In Sample.ada (contacts Sample.distinctIdState)).
  { simpl. auto. }
  split; [exact Hnd|]. split; [exact Hin|].
  pose proof (deleteContact_removes_exactly Sample.distinctIdState
                Sample.ada Hnd Hin) as H.
  cbv zeta in H. destruct H as (Hex & Hview & _).
  split; [exact Hview | exact Hex].
Defined.

(** C4, as stated, fails on a list in which two contacts share an id:
    deleting by the id of one of them removes the other too. *)
Lemma deleteContact_shared_id_counterexample :
  let l := contacts Sample.sameIdState in
  let l' := contacts (deleteContact (id Sample.ada) Sample.sameIdState) in
  In Sample.ada l /\ In Sample.bob l /\ Sample.bob <> Sample.ada /\
  l = [Sample.eve; Sample.bob; Sample.ada] /\
  l' = [Sample.eve] /\
  ~ In Sample.bob l' /\
  ~ (exists before after,
        l = (before ++ Sample.ada :: after)%list /\
        l' = (before ++ after)%list).
Proof.
  cbv zeta.
  split; [simpl; auto|]. split; [simpl; auto|].
  split; [discriminate|]. split; [reflexivity|]. split; [reflexivity|].
  split.
  - simpl. intros [H | []]. discriminate H.
  - intros (before & after & Hl & Hl').
    apply (f_equal (@length Contact)) in Hl, Hl'.
    rewrite length_app in Hl, Hl'. simpl in Hl, Hl'. lia.
Qed.

Lemma ids_from_clock_delete_all_witness :
  id (createdContact Sample.state Sample.clock FetchRejected)
  = id (createdContact initialState Sample.clock
          (FetchResolved Sample.okResponse))
  /\ (length (contacts (deleteContact (id Sample.ada) Sample.sameIdState))
      + length (filter (fun c => Z.eqb (id c) (id Sample.ada))
                  (contacts Sample.sameIdState))
      = length (contacts Sample.sameIdState))%nat.
Proof.
  destruct ids_from_clock_delete_all as (_ & Hsame & _ & Hcount).
  split.
  - apply Hsame. reflexivity.
  - apply Hcount.
Defined.

Lemma generateVCard_nameOnly_empty_lines_witness :
  nameOnly Sample.ada "Ada" /\
  Str.one_line "Ada" = true /\
  exists text,
    generateVCard Sample.ada = inr text /\
    Str.split_lines text
    = [ "BEGIN:VCARD"; "VERSION:3.0"; "FN:Ada";
        EmptyString; EmptyString; EmptyString; EmptyString; EmptyString;
        "NOTE: | Met: Conference"; "END:VCARD" ].
Proof.
  assert (Hn : nameOnly Sample.ada "Ada").
  { repeat split. }
  split; [exact Hn|]. split; [reflexivity|].
  destruct (generateVCard_nameOnly_empty_lines Sample.ada "Ada" Hn eq_refl)
    as (text & Htext & Hlines & _).
  exists text. split; [exact Htext | exact Hlines].
Defined.

Lemma firstCycle_overwrites_stored_witness :
  [Sample.ada] <> [] /\
  snd (firstCycle (mkStorage true (Some [Sample.ada])))
  = mkStorage true (Some []).
Proof.
  assert (Hne : [Sample.ada] <> []) by discriminate.
  split; [exact Hne|].
  pose proof (firstCycle_overwrites_stored [Sample.ada] Hne) as H.
  cbv zeta in H. destruct H as (_ & Hcycle & _).
  now rewrite Hcycle.
Defined.

Lemma createAll_newest_first_witness :
  Forall (fun cr => blank (cr_transcript cr) = false) Sample.creations /\
  length (contacts (createAll Sample.creations initialState)) = 2%nat.
Proof.
  assert (Hall : Forall (fun cr => blank (cr_transcript cr) = false)
                   Sample.creations).
  { repeat constructor. }
  split; [exact Hall|].
  pose proof (createAll_newest_first Sample.creations Hall) as H.
  cbv zeta in H. destruct H as (_ & Hlen & _).
  exact Hlen.
Defined.

Lemma POST_prompt_witness :
  Str.is_empty Sample.notes = false /\
  snd (POST (fun _ => None) Sample.request Sample.offline)
  = [ createParams (promptFor Sample.notes Sample.form) ].
Proof.
  split; [reflexivity|].
  pose proof (POST_prompt (fun _ => None)
                (mkFetchRequest Sample.notes Sample.form) Sample.offline
                eq_refl) as H.
  cbv zeta in H. exact (proj1 H).
Defined.

(** C9, as stated, fails on a draft with an email: the email is a hint
    field that is not empty, and the prompt that is sent does not hold it,
    while it holds the meeting context. *)
Lemma POST_prompt_email_counterexample :
  fd_email Sample.form = "sarah@acme.example" /\
  fd_meetingContext Sample.form = "Conf Hall B" /\
  exists prompt,
    snd (POST (fun _ => None) Sample.request Sample.offline)
    = [ mkCreateParams "claude-sonnet-4-20250514" 1024 [("user", prompt)] ] /\
    Str.includes Sample.notes prompt = true /\
    Str.includes "Conf Hall B" prompt = true /\
    Str.includes "sarah@acme.example" prompt = false.
Proof.
  split; [reflexivity|]. split; [reflexivity|].
  exists (promptFor Sample.notes Sample.form).
  repeat split; vm_compute; reflexivity.
Qed.

(** The handler on an answer wrapped in a code fence: the fence is removed
    before the text is parsed. *)
Example POST_fenced_answer :
  cleanText Sample.fenced = "{}" /\
  POST (Sample.parseOnly "{}" (Js.Obj [])) Sample.request
    (Sample.answering Sample.fenced)
  = (mkHttpResponse 200 (Js.Obj []),
     [createParams (promptFor Sample.notes Sample.form)]).
Proof. split; vm_compute; reflexivity. Qed.

(** A request without a draft is answered with status 500, and no upstream
    call is made. *)
Example POST_without_formData :
  POST (fun _ => None)
    (mkRequest (Some (Js.Obj [("transcript", Js.Str "Met Ada.")])))
    Sample.offline
  = (mkHttpResponse 500 (errorBody "Failed to process with AI"), []).
Proof. reflexivity. Qed.

(** The extraction service cannot be reached: the notes are kept under a
    placeholder name, with what the draft holds. *)
Example unreachable_scenario :
  let st' := processWithAI Sample.state Sample.clock FetchRejected in
  exists c,
    contacts st' = [c] /\ currentContact st' = Some c /\ view st' = DetailV /\
    name c = Js.Str "New Contact" /\
    email c = Js.Str "sarah@acme.example" /\
    meetingContext c = Js.Str "Conf Hall B" /\
    summary c = Js.Str "Notes captured - AI summary unavailable" /\
    rawNotes c = Sample.notes.
Proof. eexists. repeat split. Qed.

(** * Further properties of the code *)

(** ** The guard of the creation flow *)

Lemma trimEnd_all_space (s : string) :
  Str.is_empty (Str.trimEnd s) = all_space s.
Proof.
  induction s as [|c r IH]; simpl; [reflexivity|].
  rewrite IH. destruct (Str.is_space c), (all_space r); reflexivity.
Qed.

Lemma all_space_trimStart (s : string) :
  all_space (Str.trimStart s) = all_space s.
Proof.
  induction s as [|c r IH]; simpl; [reflexivity|].
  destruct (Str.is_space c) eqn:Hc; simpl; [exact IH|].
  now rewrite Hc.
Qed.

Lemma blank_all_space (t : string) : blank t = all_space t.
Proof.
  unfold blank, Str.trim. now rewrite trimEnd_all_space, all_space_trimStart.
Qed.

(** X1. The creation flow returns at once, sending no request and changing
    nothing, exactly when the transcript consists of white space only (the
    empty transcript included); its button is then disabled. *)
Theorem processWithAI_guard (st : State) :
  (processWithAI_begin st = None <-> all_space (transcript st) = true) /\
  (all_space (transcript st) = true ->
     processDisabled st = true /\
     forall clk out, processWithAI st clk out = st) /\
  (all_space (transcript st) = false ->
     processWithAI_begin st
     = Some (setIsProcessing true st,
             mkFetchRequest (transcript st) (formData st))).
Proof.
  unfold processWithAI, processDisabled, processWithAI_begin.
  rewrite blank_all_space.
  destruct (all_space (transcript st)); repeat split;
    try discriminate; try reflexivity.
Qed.

(** ** The name of a created contact *)

Lemma truthy_or (a b : Js.value) :
  Js.truthy (Js.or a b) = (Js.truthy a || Js.truthy b)%bool.
Proof.
  unfold Js.or. destruct (Js.truthy a) eqn:Ha; [now rewrite Ha | reflexivity].
Qed.

(** X2. Whatever the response and the draft are, the contact that the flow
    creates has a truthy name: it is never [undefined], [null] or the empty
    string. *)
Theorem createdContact_name_truthy (st : State) (clk : Clock)
  (out : FetchOutcome) :
  Js.truthy (name (createdContact st clk out)) = true.
Proof.
  assert (Hfb : Js.truthy (name (fallbackContact st clk)) = true).
  { simpl. rewrite truthy_or. apply orb_true_r. }
  unfold createdContact, extraction.
  destruct out as [|r]; simpl; [exact Hfb|].
  destruct (resp_ok r); simpl; [|exact Hfb].
  destruct (resp_json r) as [parsed|]; simpl; [|exact Hfb].
  destruct parsed; try exact Hfb; simpl; rewrite truthy_or; apply orb_true_r.
Qed.

(** ** The store *)

(** X3. In a browser, after the save effect has run for a list, a load
    from the store gives that list, whatever the store held before: the
    write is skipped only when both are empty. Where there is no [window],
    the effect changes nothing and a load gives the empty list. *)
Theorem saveEffect_agrees (cs : list Contact) (sto : Storage) :
  (hasWindow sto = true -> loadFromStorage (saveEffect cs sto) = cs) /\
  (hasWindow sto = false ->
     saveEffect cs sto = sto /\ loadFromStorage (saveEffect cs sto) = []).
Proof.
  destruct sto as [w it]. unfold saveEffect, saveToStorage, loadFromStorage.
  simpl. split; intros ->; simpl.
  - destruct cs as [|c cs]; simpl; [|reflexivity].
    destruct it as [[|d ds]|]; reflexivity.
  - split; destruct (0 <? length cs)%nat; reflexivity.
Qed.

(** X4. The two render cycles of the mount together: the list in memory
    is the list that was stored, and the store holds it again. *)
Theorem mount_restores (sto : Storage) :
  let (queued, sto1) := firstCycle sto in
  let (st2, sto2) := secondCycle queued sto1 in
  contacts st2 = loadFromStorage sto /\
  loadFromStorage sto2 = loadFromStorage sto /\
  currentContact st2 = None /\ view st2 = ListV.
Proof.
  destruct sto as [[|] [[|c cs]|]]; repeat split.
Qed.

(** ** Deletions *)

Lemma filter_twice {A : Type} (p q : A -> bool) (l : list A) :
  filter p (filter q l) = filter (fun x => (q x && p x)%bool) l.
Proof.
  induction l as [|a l IH]; simpl; [reflexivity|].
  destruct (q a); simpl; [destruct (p a); simpl; now rewrite IH | exact IH].
Qed.

(** X5. Deleting by an id a second time changes nothing more, and two
    deletions give the same state in either order. *)
Theorem deleteContact_idempotent_commutes (i j : Z) (st : State) :
  deleteContact i (deleteContact i st) = deleteContact i st /\
  deleteContact i (deleteContact j st) = deleteContact j (deleteContact i st).
Proof.
  unfold deleteContact, setCurrentContact, setView, setContacts. simpl.
  split; f_equal; rewrite !filter_twice; apply filter_ext; intros c.
  - now destruct (negb (id c =? i)%Z).
  - apply andb_comm.
Qed.

(** X6. A creation followed by the deletion of its id gives back the list
    there was before, when no contact of that list has the id. *)
Theorem create_then_delete (st : State) (cr : Creation) :
  blank (cr_transcript cr) = false ->
  ~ In (now (cr_clock cr)) (map id (contacts st)) ->
  contacts (deleteContact (now (cr_clock cr)) (create st cr)) = contacts st.
Proof.
  intros Hb Hfresh.
  rewrite deleteContact_contacts, create_contacts by exact Hb.
  simpl. unfold contactOf. rewrite createdContact_id, Z.eqb_refl. simpl.
  now apply filter_other_ids.
Qed.

(** X7. When the clock readings of a sequence of creations are pairwise
    distinct, so are the ids of the contacts in the resulting list. *)
Theorem createAll_distinct_ids (crs : list Creation) :
  Forall (fun cr => blank (cr_transcript cr) = false) crs ->
  NoDup (map (fun cr => now (cr_clock cr)) crs) ->
  NoDup (map id (contacts (createAll crs initialState))).
Proof.
  intros Hall Hnd. rewrite createAll_contacts by exact Hall.
  simpl. rewrite app_nil_r, map_rev, map_map.
  apply NoDup_rev.
  erewrite map_ext; [exact Hnd|].
  intros cr. unfold contactOf. apply createdContact_id.
Qed.

(** ** The avatars *)

(** X8. The colour pair of a list entry is defined at every index: the
    read of [avatarColors[idx % 5][0]] cannot fail. *)
Theorem avatarColor_defined (idx : nat) :
  exists pair, avatarColor idx = Some pair /\ In pair avatarColors.
Proof.
  unfold avatarColor.
  destruct (nth_error avatarColors (idx mod 5)) as [pair|] eqn:Hn.
  - exists pair. split; [reflexivity|]. eapply nth_error_In; eassumption.
  - apply nth_error_None in Hn.
    change (length avatarColors) with 5%nat in Hn.
    pose proof (Nat.mod_upper_bound idx 5). lia.
Qed.

(** ** The screens *)

Lemma handle_DetailInv (e : Event) (st : State) :
  raisable e st -> DetailInv st -> DetailInv (handle e st).
Proof.
  intros Hr [Hview Hcur].
  destruct e as [ | | k v | t | finalTranscript | recording | dataUrl | c
                | | ]; simpl in *.
  - (* OpenNew *) split; [discriminate | exact Hcur].
  - (* CloseNew *) split; [discriminate | exact Hcur].
  - (* EditField *) split; assumption.
  - (* EditTranscript *) split; assumption.
  - (* SpeechResult *)
    destruct (Str.is_empty finalTranscript); split; assumption.
  - (* ToggleRecording *) destruct recording; split; assumption.
  - (* PhotoLoaded *) split; assumption.
  - (* SelectContact *)
    split; [discriminate|]. intros c' Hc'. injection Hc' as <-. exact Hr.
  - (* BackToList *) split; [discriminate | exact Hcur].
  - (* DeleteCurrent *)
    destruct (currentContact st) as [c|] eqn:Hc.
    + split; [discriminate | intros c' Hc'; discriminate Hc'].
    + split; [now rewrite Hc | intros c' Hc'; congruence].
Qed.

Lemma resume_DetailInv st0 clk out st :
  DetailInv (processWithAI_resume st0 clk out st).
Proof.
  rewrite resume_createdContact. split; simpl.
  - discriminate.
  - intros c Hc. injection Hc as <-. now left.
Qed.

Lemma submit_state (st st1 : State) (rq : FetchRequest) :
  clickProcess st = Some (st1, rq) -> st1 = setIsProcessing true st.
Proof.
  unfold clickProcess, processWithAI_begin.
  destruct (processDisabled st); [discriminate|].
  destruct (blank (transcript st)); [discriminate|].
  intros H. now injection H as <- _.
Qed.

(** X9. In every state the interface reaches, the detail view has a
    current contact to show, and a current contact is an element of the
    list: the detail view never renders nothing and never shows a contact
    that was deleted. *)
Theorem detail_view_shows_listed_contact (st : State) :
  UiReachable st ->
  (view st = DetailV ->
     exists c, currentContact st = Some c /\ In c (contacts st)) /\
  (forall c, currentContact st = Some c -> In c (contacts st)).
Proof.
  intros Hreach.
  assert (Hinv : DetailInv st).
  { induction Hreach as [queued | st st' _ IH Hstep].
    - split; simpl; [discriminate | intros c Hc; discriminate Hc].
    - destruct Hstep as [e st Hr | st st1 rq Hclick | st0 clk out st].
      + now apply handle_DetailInv.
      + rewrite (submit_state st st1 rq Hclick). exact IH.
      + apply resume_DetailInv. }
  destruct Hinv as [Hview Hcur]. split; [|exact Hcur].
  intros Hv. destruct (currentContact st) as [c|] eqn:Hc.
  - exists c. split; [reflexivity | now apply Hcur].
  - now elim (Hview Hv).
Qed.





(** ** Speech capture *)

Lemma append_assoc (a b c : string) : (a ++ b) ++ c = a ++ (b ++ c).
Proof. induction a; simpl; congruence. Qed.

Lemma skipn_nth_error {A : Type} (l : list A) (i : nat) (x : A) :
  nth_error l i = Some x -> skipn i l = x :: skipn (S i) l.
Proof.
  revert i. induction l as [|a l IH]; intros [|i] H; simpl in *;
    try discriminate.
  - now injection H as ->.
  - now apply IH.
Qed.

Lemma finalLoop_finalText (results : list RecognitionResult)
  (fuel i : nat) (acc : string) :
  (length results <= i + fuel)%nat ->
  finalLoop fuel i results acc = acc ++ finalText (skipn i results).
Proof.
  revert i acc. induction fuel as [|fuel IH]; intros i acc Hlen; simpl.
  - rewrite skipn_all2 by lia. simpl. now rewrite append_nil_r.
  - destruct (nth_error results i) as [r|] eqn:Hi.
    + rewrite IH by lia. rewrite (skipn_nth_error results i r Hi). simpl.
      destruct (res_isFinal r); [|reflexivity].
      now rewrite !append_assoc.
    + apply nth_error_None in Hi. rewrite skipn_all2 by lia.
      simpl. now rewrite append_nil_r.
Qed.

Lemma finalText_interim (results : list RecognitionResult) :
  forallb (fun r => negb (res_isFinal r)) results = true ->
  finalText results = EmptyString.
Proof.
  induction results as [|r rest IH]; simpl; [reflexivity|].
  destruct (res_isFinal r); simpl; [discriminate | exact IH].
Qed.

(** X11. A recognition event appends to the transcript the final results
    from [resultIndex] on, in their order and each followed by a space, and
    changes nothing else. Results before [resultIndex] and results that are
    not final contribute nothing; an event without a final result leaves
    the state as it is. *)
Theorem onresult_appends_final (resultIndex : nat)
  (results : list RecognitionResult) (st : State) :
  finalTranscriptOf resultIndex results
  = finalText (skipn resultIndex results) /\
  onresult resultIndex results st
  = setTranscript (transcript st ++ finalText (skipn resultIndex results)) st /\
  (forallb (fun r => negb (res_isFinal r)) (skipn resultIndex results) = true ->
   onresult resultIndex results st = st).
Proof.
  assert (Hf : finalTranscriptOf resultIndex results
               = finalText (skipn resultIndex results)).
  { unfold finalTranscriptOf. now rewrite finalLoop_finalText by lia. }
  assert (Hst : forall s, setTranscript (transcript s) s = s).
  { intros []; reflexivity. }
  split; [exact Hf|]. unfold onresult. simpl. rewrite Hf. split.
  - destruct (finalText (skipn resultIndex results)) eqn:Ht; simpl.
    + now rewrite append_nil_r, Hst.
    + reflexivity.
  - intros Hall. now rewrite (finalText_interim _ Hall).
Qed.

(** X12. A click on the microphone that starts a recording discards the
    transcript, whether [start()] returns or throws; a click that stops a
    recording leaves the transcript as it is. *)
Theorem clickMic_transcript (hasApi startOk : bool) (st : State)
  (r : Recorder) :
  speechSupported r = true ->
  transcript (fst (clickMic hasApi startOk (st, r)))
  = if isRecording r then transcript st else EmptyString.
Proof.
  intros Hs. unfold clickMic. simpl. rewrite Hs. simpl.
  destruct (isRecording r); [reflexivity|].
  destruct (startCurrent startOk r); reflexivity.
Qed.

(** ** The recognizers *)

Lemma nth_error_app_some {A : Type} (l l' : list A) (i : nat) (x : A) :
  nth_error l i = Some x -> nth_error (l ++ l')%list i = Some x.
Proof.
  intros H. rewrite nth_error_app1; [exact H|].
  apply nth_error_Some. congruence.
Qed.

Lemma nth_error_snoc {A : Type} (l : list A) (x : A) :
  nth_error (l ++ [x])%list (length l) = Some x.
Proof.
  rewrite nth_error_app2 by lia. now rewrite Nat.sub_diag.
Qed.

Ltac recorder_inv := unfold RecorderInv; split; [|split; [|split]]; simpl.

Lemma speechEffect_initial (hasApi : bool) :
  RecorderInv hasApi (speechEffect hasApi initialRecorder).
Proof.
  destruct hasApi; recorder_inv; try tauto; try discriminate;
    intros i H; try discriminate H; now injection H as <-.
Qed.

Lemma setIsRecording_inv (hasApi b : bool) (r : Recorder) :
  RecorderInv hasApi r -> RecorderInv hasApi (setIsRecording hasApi b r).
Proof.
  intros Hinv. unfold setIsRecording.
  destruct (Bool.eqb b (isRecording r)); [exact Hinv|].
  destruct Hinv as (J1 & J2 & J3 & J4).
  unfold speechEffect. destruct hasApi; recorder_inv.
  - intros i H. now apply nth_error_app_some, J1.
  - intros i H. now apply nth_error_app_some, J2.
  - intros i H. injection H as <-. apply nth_error_snoc.
  - discriminate.
  - exact J1.
  - exact J2.
  - intros i H. destruct (J4 eq_refl) as [Hcur _]. congruence.
  - exact J4.
Qed.

Lemma startCurrent_inv (hasApi startOk : bool) (r r' : Recorder) :
  RecorderInv hasApi r -> isRecording r = false ->
  startCurrent startOk r = Some r' ->
  RecorderInv hasApi r' /\ isRecording r' = false.
Proof.
  intros Hinv Hrec. unfold startCurrent.
  destruct (current r) as [i|] eqn:Hcur.
  - destruct startOk; [|discriminate]. intros H. injection H as <-.
    split; [|exact Hrec]. destruct Hinv as (J1 & J2 & J3 & J4).
    recorder_inv.
    + intros j [[Hj | Hj] | [Hj | Hj]]; try discriminate Hj.
      * injection Hj as <-. rewrite <- Hrec. now apply J3.
      * apply J1. now left.
      * apply J1. now right.
    + intros j [Hj | Hj]; [discriminate Hj | now apply J2].
    + exact J3.
    + exact J4.
  - intros H. injection H as <-. split; assumption.
Qed.

Lemma logThrow_inv (hasApi : bool) (r : Recorder) :
  RecorderInv hasApi r -> isRecording r = false ->
  RecorderInv hasApi (logThrow r).
Proof.
  intros Hinv Hrec. unfold logThrow.
  destruct (current r) as [i|] eqn:Hcur; [|exact Hinv].
  destruct Hinv as (J1 & J2 & J3 & J4). recorder_inv.
  - intros j [[Hj | Hj] | [Hj | Hj]]; try discriminate Hj.
    + apply J1. now left.
    + injection Hj as <-. rewrite <- Hrec. now apply J3.
    + apply J1. now right.
  - intros j [Hj | Hj]; [discriminate Hj | now apply J2].
  - exact J3.
  - exact J4.
Qed.

Lemma stopCurrent_inv (hasApi : bool) (r : Recorder) :
  RecorderInv hasApi r -> isRecording r = true ->
  RecorderInv hasApi (stopCurrent r).
Proof.
  intros Hinv Hrec. unfold stopCurrent.
  destruct (current r) as [i|] eqn:Hcur; [|exact Hinv].
  destruct Hinv as (J1 & J2 & J3 & J4). recorder_inv.
  - intros j [[Hj | Hj] | [Hj | Hj]]; try discriminate Hj.
    + apply J1. now left.
    + apply J1. now right.
  - intros j [Hj | Hj]; [|now apply J2].
    injection Hj as <-. rewrite <- Hrec. now apply J3.
  - exact J3.
  - exact J4.
Qed.

Lemma toggleRecording_inv (hasApi startOk : bool) (app : State * Recorder) :
  RecorderInv hasApi (snd app) ->
  RecorderInv hasApi (snd (toggleRecording hasApi startOk app)).
Proof.
  destruct app as [st r]. simpl. intros Hinv.
  destruct (isRecording r) eqn:Hrec; simpl.
  - apply setIsRecording_inv. now apply stopCurrent_inv.
  - destruct (startCurrent startOk r) as [r'|] eqn:Hstart; simpl.
    + apply setIsRecording_inv.
      now apply (startCurrent_inv hasApi startOk r r').
    + now apply logThrow_inv.
Qed.

(** The restart branch of [onend] is not reached for a recognizer on which
    [start()] returned. *)
Lemma onend_started (hasApi startOk : bool) (i : nat) (app : State * Recorder) :
  RecorderInv hasApi (snd app) ->
  In (Started i) (calls (snd app)) ->
  onend hasApi startOk i app = app.
Proof.
  destruct app as [st r]. simpl. intros (J1 & _) Hi.
  now rewrite (J1 i (or_introl Hi)).
Qed.

Lemma speechStep_inv (hasApi : bool) (app app' : State * Recorder) :
  SpeechStep hasApi app app' ->
  RecorderInv hasApi (snd app) -> RecorderInv hasApi (snd app').
Proof.
  intros Hstep Hinv.
  destruct Hstep as [startOk app | i idx results app Hi | i app Hi
                    | startOk i app Hi].
  - unfold clickMic. destruct (speechSupported (snd app)); [|exact Hinv].
    now apply toggleRecording_inv.
  - exact Hinv.
  - simpl. now apply setIsRecording_inv.
  - now rewrite (onend_started hasApi startOk i app Hinv Hi).
Qed.

Lemma speechReachable_inv (hasApi : bool) (app : State * Recorder) :
  SpeechReachable hasApi app -> RecorderInv hasApi (snd app).
Proof.
  induction 1 as [st | app app' _ IH Hstep].
  - apply speechEffect_initial.
  - exact (speechStep_inv hasApi app app' Hstep IH).
Qed.

(** X13. However the microphone button and the recognizers' events
    interleave, [stop()] is never called on a recognizer on which [start()]
    was called: the effect replaces the recognizer in the ref each time
    [isRecording] changes, so the click that stops reaches a recognizer
    that was created after the one that was started. *)
Theorem stop_never_reaches_started (hasApi : bool) (app : State * Recorder) :
  SpeechReachable hasApi app ->
  forall i : nat,
    In (Stopped i) (calls (snd app)) ->
    ~ In (Started i) (calls (snd app)) /\
    ~ In (StartThrew i) (calls (snd app)).
Proof.
  intros Hreach i Hstop.
  destruct (speechReachable_inv hasApi app Hreach) as (J1 & J2 & _).
  pose proof (J2 i Hstop) as Htrue.
  split; intros Hs.
  - rewrite (J1 i (or_introl Hs)) in Htrue. discriminate Htrue.
  - rewrite (J1 i (or_intror Hs)) in Htrue. discriminate Htrue.
Qed.

(** X14. The restart of [onend] never runs: a recognizer on which
    [start()] returned was created in a render in which [isRecording] was
    unset, so its [onend] handler changes nothing and calls nothing, even
    while the component shows that it is recording. *)
Theorem onend_never_restarts (hasApi startOk : bool) (i : nat)
  (app : State * Recorder) :
  SpeechReachable hasApi app ->
  In (Started i) (calls (snd app)) ->
  nth_error (closures (snd app)) i = Some false /\
  onend hasApi startOk i app = app.
Proof.
  intros Hreach Hi.
  pose proof (speechReachable_inv hasApi app Hreach) as Hinv.
  split.
  - destruct Hinv as (J1 & _). apply J1. now left.
  - now apply onend_started.
Qed.

(** ** The export *)

Lemma split_lines_from_app (a b cur : string) :
  Str.split_lines_from cur (a ++ Str.nl ++ b)
  = (Str.split_lines_from cur a ++ Str.split_lines_from EmptyString b)%list.
Proof.
  revert cur. induction a as [|ch a IH]; intros cur; simpl.
  - reflexivity.
  - destruct (Ascii.eqb ch "010"); simpl; now rewrite IH.
Qed.

Lemma split_lines_from_length (s cur : string) :
  (1 <= length (Str.split_lines_from cur s))%nat.
Proof.
  revert cur. induction s as [|ch s IH]; intros cur; simpl; [lia|].
  destruct (Ascii.eqb ch "010"); simpl; [lia | apply IH].
Qed.

Lemma split_unlines_cons (l l' : string) (ls : list string) :
  Str.split_lines (Str.unlines (l :: l' :: ls))
  = (Str.split_lines l ++ Str.split_lines (Str.unlines (l' :: ls)))%list.
Proof.
  unfold Str.split_lines, Str.unlines.
  change (String.concat Str.nl (l :: l' :: ls))
    with (l ++ Str.nl ++ String.concat Str.nl (l' :: ls)).
  apply split_lines_from_app.
Qed.

Lemma generateVCard_text (c : Contact) (text : string) :
  generateVCard c = inr text ->
  exists fn org title mail tel adr note : string,
    text = Str.unlines
             [ "BEGIN:VCARD"; "VERSION:3.0"; fn; org; title; mail; tel; adr;
               note; "END:VCARD" ].
Proof.
  unfold generateVCard, Js.bind, Js.ret.
  destruct (Js.toString (name c)) as [|fn]; [discriminate|].
  destruct (optionalLine "ORG:" (company c) EmptyString) as [|org];
    [discriminate|].
  destruct (optionalLine "TITLE:" (role c) EmptyString) as [|title];
    [discriminate|].
  destruct (optionalLine "EMAIL:" (email c) EmptyString) as [|mail];
    [discriminate|].
  destruct (optionalLine "TEL:" (phone c) EmptyString) as [|tel];
    [discriminate|].
  destruct (optionalLine "ADR:;;" (location c) ";;;") as [|adr];
    [discriminate|].
  destruct (Js.toString (Js.or (summary c) (Js.Str EmptyString))) as [|note];
    [discriminate|].
  destruct (Js.toString (Js.or (meetingContext c) (Js.Str "Conference")))
    as [|met]; [discriminate|].
  intros H. injection H as <-.
  now exists ("FN:" ++ fn), org, title, mail, tel, adr,
    ("NOTE:" ++ note ++ " | Met: " ++ met).
Qed.

(** X15. Whatever the fields of a contact hold, a card that is produced
    opens with the lines [BEGIN:VCARD] and [VERSION:3.0], closes with the
    line [END:VCARD], and has at least seven lines in between: field values
    are not escaped, so they can add lines, but cannot displace the
    envelope. *)
Theorem generateVCard_envelope (c : Contact) (text : string) :
  generateVCard c = inr text ->
  exists fields : list string,
    Str.split_lines text
    = ([ "BEGIN:VCARD"; "VERSION:3.0" ] ++ fields ++ [ "END:VCARD" ])%list /\
    (7 <= length fields)%nat.
Proof.
  intros Hgen.
  destruct (generateVCard_text c text Hgen)
    as (fn & org & title & mail & tel & adr & note & ->).
  exists (Str.split_lines fn ++ Str.split_lines org ++ Str.split_lines title
          ++ Str.split_lines mail ++ Str.split_lines tel
          ++ Str.split_lines adr ++ Str.split_lines note)%list.
  split.
  - rewrite !split_unlines_cons. simpl. rewrite <- !app_assoc. reflexivity.
  - rewrite !length_app. unfold Str.split_lines.
    pose proof (split_lines_from_length fn EmptyString).
    pose proof (split_lines_from_length org EmptyString).
    pose proof (split_lines_from_length title EmptyString).
    pose proof (split_lines_from_length mail EmptyString).
    pose proof (split_lines_from_length tel EmptyString).
    pose proof (split_lines_from_length adr EmptyString).
    pose proof (split_lines_from_length note EmptyString).
    lia.
Qed.

Lemma no_space_underscoreRuns (inRun : bool) (s : string) :
  no_space (underscoreRuns inRun s) = true.
Proof.
  revert inRun. induction s as [|ch s IH]; intros inRun; simpl;
    [reflexivity|].
  destruct (Str.is_space ch) eqn:Hch.
  - destruct inRun; simpl; apply IH.
  - simpl. now rewrite Hch, IH.
Qed.

Lemma no_space_append (a b : string) :
  no_space (a ++ b) = (no_space a && no_space b)%bool.
Proof.
  induction a as [|ch a IH]; simpl; [reflexivity|].
  now rewrite IH, andb_assoc.
Qed.

Lemma underscoreRuns_no_space (inRun : bool) (s : string) :
  no_space s = true -> underscoreRuns inRun s = s.
Proof.
  revert inRun. induction s as [|ch s IH]; intros inRun H; simpl in *;
    [reflexivity|].
  apply andb_true_iff in H. destruct H as [Hch Hs].
  apply negb_true_iff in Hch. rewrite Hch. now rewrite IH.
Qed.

Lemma underscoreRuns_all_space (s : string) :
  all_space s = true -> underscoreRuns true s = EmptyString.
Proof.
  induction s as [|ch s IH]; intros H; simpl in *; [reflexivity|].
  apply andb_true_iff in H. destruct H as [Hch Hs].
  rewrite Hch. now apply IH.
Qed.

(** X16. For a contact whose name is a string, the file name of the
    download is the name with every run of white space replaced by one
    underscore, followed by [.vcf]: it holds no white space, it is the name
    itself followed by [.vcf] when the name holds none, and [_.vcf] when
    the name consists of white space only. *)
Theorem downloadName_no_space (c : Contact) (n : string) :
  name c = Js.Str n ->
  exists base : string,
    downloadName c = inr (base ++ ".vcf") /\
    no_space (base ++ ".vcf") = true /\
    (no_space n = true -> base = n) /\
    (all_space n = true -> n <> EmptyString -> base = "_").
Proof.
  intros Hn. exists (underscoreRuns false n).
  unfold downloadName. rewrite Hn. split; [reflexivity|]. split; [|split].
  - rewrite no_space_append, no_space_underscoreRuns. reflexivity.
  - apply underscoreRuns_no_space.
  - intros Hall Hne. destruct n as [|ch n]; [contradiction|].
    simpl in *. apply andb_true_iff in Hall. destruct Hall as [Hch Hs].
    rewrite Hch. now rewrite underscoreRuns_all_space.
Qed.

(** X17. A response may give a number as the name. The contact that is
    created then has that number as its name, and its card cannot be
    downloaded: the export throws when it builds the file name. *)
Theorem numeric_name_blocks_download (st : State) (clk : Clock)
  (r : Response) (props : list (string * Js.value)) (n : Js.number) :
  resp_ok r = true ->
  resp_json r = Some (Js.Obj props) ->
  Js.lookup "name" props = Js.Num n ->
  Js.nonzero n = true ->
  let c := createdContact st clk (FetchResolved r) in
  name c = Js.Num n /\ exists e, downloadCard c = inl e.
Proof.
  intros Hok Hj Hname Hnz c.
  assert (Hc : name c = Js.Num n).
  { subst c. unfold createdContact.
    rewrite (extraction_resolved st clk r _ Hok Hj).
    rewrite newContact_defined by discriminate.
    cbn [name prop]. rewrite Hname. unfold Js.or.
    cbn [Js.truthy]. rewrite Hnz. cbn [Js.truthy]. now rewrite Hnz. }
  split; [exact Hc|].
  unfold downloadCard, downloadName, Js.bind. rewrite Hc.
  destruct (generateVCard c); eexists; reflexivity.
Qed.

(** ** The cleaning of the model's answer *)

Lemma is_empty_eq (s : string) : Str.is_empty s = true -> s = EmptyString.
Proof. destruct s; [reflexivity | discriminate]. Qed.

Lemma trimEnd_idempotent (s : string) :
  Str.trimEnd (Str.trimEnd s) = Str.trimEnd s.
Proof.
  induction s as [|ch s IH]; simpl; [reflexivity|].
  destruct (Str.is_space ch && Str.is_empty (Str.trimEnd s))%bool eqn:Hc;
    simpl; [reflexivity|].
  now rewrite IH, Hc.
Qed.

(** A text that does not begin with white space. *)
Lemma trimStart_fixed (s : string) :
  match s with
  | EmptyString => True
  | String ch _ => Str.is_space ch = false
  end ->
  Str.trimStart s = s.
Proof. destruct s as [|ch s]; simpl; [reflexivity|]. now intros ->. Qed.

Lemma trimStart_head (s : string) :
  match Str.trimStart s with
  | EmptyString => True
  | String ch _ => Str.is_space ch = false
  end.
Proof.
  induction s as [|ch s IH]; simpl; [exact I|].
  destruct (Str.is_space ch) eqn:Hc; [exact IH | exact Hc].
Qed.

Lemma trimEnd_head (s : string) :
  match s with
  | EmptyString => True
  | String ch _ => Str.is_space ch = false
  end ->
  match Str.trimEnd s with
  | EmptyString => True
  | String ch _ => Str.is_space ch = false
  end.
Proof.
  destruct s as [|ch s]; simpl; [trivial|].
  intros Hc. now rewrite Hc.
Qed.

Lemma trim_idempotent (s : string) : Str.trim (Str.trim s) = Str.trim s.
Proof.
  unfold Str.trim.
  rewrite (trimStart_fixed (Str.trimEnd (Str.trimStart s))).
  - apply trimEnd_idempotent.
  - apply trimEnd_head, trimStart_head.
Qed.

Lemma remove_all_from_keep (pat : string) (ch : ascii) (r : string) :
  String.prefix pat (String ch r) = false ->
  Str.remove_all_from pat O (String ch r)
  = String ch (Str.remove_all_from pat O r).
Proof.
  intros H.
  change (Str.remove_all_from pat O (String ch r))
    with (if String.prefix pat (String ch r)
          then Str.remove_all_from pat
                 (Nat.pred (String.length pat)
                  + (if Str.starts_with_nl
                          (Str.drop (String.length pat) (String ch r))
                     then 1 else 0))%nat r
          else String ch (Str.remove_all_from pat O r)).
  now rewrite H.
Qed.

Lemma remove_all_from_drop (pat : string) (ch : ascii) (r : string) :
  String.prefix pat (String ch r) = true ->
  exists k, Str.remove_all_from pat O (String ch r)
            = Str.remove_all_from pat k r.
Proof.
  intros H. eexists.
  change (Str.remove_all_from pat O (String ch r))
    with (if String.prefix pat (String ch r)
          then Str.remove_all_from pat
                 (Nat.pred (String.length pat)
                  + (if Str.starts_with_nl
                          (Str.drop (String.length pat) (String ch r))
                     then 1 else 0))%nat r
          else String ch (Str.remove_all_from pat O r)).
  rewrite H. reflexivity.
Qed.

Lemma prefix_cons (a : ascii) (t : string) (ch : ascii) (r : string) :
  String.prefix (String a t) (String ch r)
  = (Ascii.eqb ch a && String.prefix t r)%bool.
Proof.
  change (String.prefix (String a t) (String ch r))
    with (if ascii_dec a ch then String.prefix t r else false).
  destruct (ascii_dec a ch) as [<- | Hne].
  - now rewrite Ascii.eqb_refl.
  - assert (Hb : Ascii.eqb ch a = false) by (apply Ascii.eqb_neq; congruence).
    now rewrite Hb.
Qed.

Lemma prefix_nil (r : string) : String.prefix EmptyString r = true.
Proof. now destruct r. Qed.

Lemma prefix_fence_cons (ch : ascii) (r : string) :
  String.prefix "```" (String ch r)
  = (Ascii.eqb ch "`" && String.prefix "``" r)%bool.
Proof. apply prefix_cons. Qed.

Lemma prefix_two_cons (ch : ascii) (r : string) :
  String.prefix "``" (String ch r)
  = (Ascii.eqb ch "`" && String.prefix "`" r)%bool.
Proof. apply prefix_cons. Qed.

Lemma prefix_one_cons (ch : ascii) (r : string) :
  String.prefix "`" (String ch r) = Ascii.eqb ch "`".
Proof. rewrite prefix_cons, prefix_nil. apply andb_true_r. Qed.

(** Where no fence begins, none begins after the removal either. *)
Lemma remove_fence_head (ch : ascii) (r : string) :
  String.prefix "```" (String ch r) = false ->
  String.prefix "```" (String ch (Str.remove_all_from "```" O r)) = false.
Proof.
  rewrite !prefix_fence_cons.
  destruct (Ascii.eqb ch "`"); [|reflexivity].
  rewrite !andb_true_l.
  destruct r as [|c2 r2]; [reflexivity|].
  rewrite prefix_two_cons.
  destruct (Ascii.eqb c2 "`") eqn:H2.
  - apply Ascii.eqb_eq in H2. subst c2. rewrite andb_true_l.
    destruct r2 as [|c3 r3]; [reflexivity|].
    rewrite prefix_one_cons. intros H3.
    rewrite remove_all_from_keep
      by (now rewrite prefix_fence_cons, prefix_two_cons, H3).
    rewrite prefix_two_cons.
    rewrite remove_all_from_keep by (now rewrite prefix_fence_cons, H3).
    now rewrite prefix_one_cons, H3.
  - intros _.
    rewrite remove_all_from_keep by (now rewrite prefix_fence_cons, H2).
    now rewrite prefix_two_cons, H2.
Qed.

Lemma remove_fence_none (s : string) (skip : nat) :
  Str.includes "```" (Str.remove_all_from "```" skip s) = false.
Proof.
  revert skip. induction s as [|ch r IH]; intros skip; [reflexivity|].
  destruct skip as [|k]; [|apply IH].
  destruct (String.prefix "```" (String ch r)) eqn:Hp.
  - destruct (remove_all_from_drop "```" ch r Hp) as [k ->]. apply IH.
  - rewrite remove_all_from_keep by exact Hp.
    change (Str.includes "```" (String ch (Str.remove_all_from "```" 0 r)))
      with (String.prefix "```" (String ch (Str.remove_all_from "```" 0 r))
            || Str.includes "```" (Str.remove_all_from "```" 0 r))%bool.
    now rewrite remove_fence_head, IH.
Qed.

Lemma prefix_empty_r (t : string) :
  String.prefix t EmptyString = true -> t = EmptyString.
Proof. destruct t; [reflexivity | discriminate]. Qed.

Lemma includes_empty (s : string) : Str.includes EmptyString s = true.
Proof. apply includes_prefix. now destruct s. Qed.

Lemma includes_cons (t : string) (ch : ascii) (r : string) :
  Str.includes t (String ch r)
  = (String.prefix t (String ch r) || Str.includes t r)%bool.
Proof. reflexivity. Qed.

Lemma includes_trimStart (t s : string) :
  Str.includes t (Str.trimStart s) = true -> Str.includes t s = true.
Proof.
  induction s as [|ch r IH]; simpl; [trivial|].
  destruct (Str.is_space ch); [|trivial].
  intros H. rewrite (IH H). apply orb_true_r.
Qed.

Lemma prefix_trimEnd (s t : string) :
  String.prefix t (Str.trimEnd s) = true -> String.prefix t s = true.
Proof.
  revert t. induction s as [|ch r IH]; intros t; [trivial|].
  simpl Str.trimEnd.
  destruct (Str.is_space ch && Str.is_empty (Str.trimEnd r))%bool.
  - intros H. rewrite (prefix_empty_r t H). reflexivity.
  - destruct t as [|a t]; [reflexivity|]. simpl.
    destruct (ascii_dec a ch); [apply IH | trivial].
Qed.

Lemma includes_trimEnd (t s : string) :
  Str.includes t (Str.trimEnd s) = true -> Str.includes t s = true.
Proof.
  induction s as [|ch r IH]; [trivial|].
  simpl Str.trimEnd.
  destruct (Str.is_space ch && Str.is_empty (Str.trimEnd r))%bool eqn:Hc.
  - intros H. rewrite (prefix_empty_r t H). apply includes_empty.
  - rewrite !includes_cons. intros H.
    apply orb_true_iff in H. destruct H as [H | H].
    + assert (Hp : String.prefix t (Str.trimEnd (String ch r)) = true).
      { simpl Str.trimEnd. now rewrite Hc. }
      now rewrite (prefix_trimEnd _ _ Hp).
    + rewrite (IH H). apply orb_true_r.
Qed.

(** X18. The cleaned text holds no run of three backticks, and it neither
    begins nor ends with white space: cleaning it again gives the same
    text. *)
Theorem cleanText_no_fence (text : string) :
  Str.includes "```" (cleanText text) = false /\
  Str.trim (cleanText text) = cleanText text.
Proof.
  split; [|apply trim_idempotent].
  unfold cleanText, Str.trim.
  destruct (Str.includes "```" _) eqn:H; [|reflexivity].
  apply includes_trimEnd, includes_trimStart in H.
  unfold Str.remove_all in H. now rewrite remove_fence_none in H.
Qed.

Lemma remove_all_from_absent (pat s : string) :
  Str.includes pat s = false -> Str.remove_all_from pat O s = s.
Proof.
  induction s as [|ch r IH]; [reflexivity|].
  rewrite includes_cons. intros H.
  apply orb_false_iff in H. destruct H as [Hp Hr].
  rewrite remove_all_from_keep by exact Hp. now rewrite IH.
Qed.

Lemma prefix_weaken (a b s : string) :
  String.prefix (a ++ b) s = true -> String.prefix a s = true.
Proof.
  revert s. induction a as [|x a IH]; intros s; [intros _; apply prefix_nil|].
  destruct s as [|ch r]; [discriminate|].
  change (String x a ++ b) with (String x (a ++ b)).
  rewrite !prefix_cons. intros H.
  apply andb_true_iff in H. destruct H as [Hx Hr].
  now rewrite Hx, (IH r Hr).
Qed.

Lemma includes_weaken (a b s : string) :
  Str.includes a s = false -> Str.includes (a ++ b) s = false.
Proof.
  induction s as [|ch r IH].
  - change (Str.includes a EmptyString) with (String.prefix a EmptyString).
    change (Str.includes (a ++ b) EmptyString)
      with (String.prefix (a ++ b) EmptyString).
    intros H. destruct (String.prefix (a ++ b) EmptyString) eqn:Hab;
      [|reflexivity].
    now rewrite (prefix_weaken a b _ Hab) in H.
  - rewrite !includes_cons. intros H.
    apply orb_false_iff in H. destruct H as [Hp Hr].
    rewrite (IH Hr), orb_false_r.
    destruct (String.prefix (a ++ b) (String ch r)) eqn:Hab; [|reflexivity].
    now rewrite (prefix_weaken a b _ Hab) in Hp.
Qed.

(** X19. A text without a run of three backticks is only trimmed. *)
Theorem cleanText_plain (text : string) :
  Str.includes "```" text = false -> cleanText text = Str.trim text.
Proof.
  intros H. unfold cleanText, Str.remove_all.
  rewrite (remove_all_from_absent "```json" text)
    by exact (includes_weaken "```" "json" text H).
  now rewrite (remove_all_from_absent "```" text H).
Qed.

(** No fence begins in [x] followed by a line feed where none begins in
    [x]. *)
Lemma prefix_fence_before_nl (x y : string) :
  String.prefix "```" x = false ->
  String.prefix "```" (x ++ Str.nl ++ y) = false.
Proof.
  destruct x as [|c1 x]; [reflexivity|].
  change (String c1 x ++ Str.nl ++ y) with (String c1 (x ++ Str.nl ++ y)).
  rewrite !prefix_fence_cons.
  destruct (Ascii.eqb c1 "`"); [|reflexivity]. rewrite !andb_true_l.
  destruct x as [|c2 x]; [reflexivity|].
  change (String c2 x ++ Str.nl ++ y) with (String c2 (x ++ Str.nl ++ y)).
  rewrite !prefix_two_cons.
  destruct (Ascii.eqb c2 "`"); [|reflexivity]. rewrite !andb_true_l.
  destruct x as [|c3 x]; [reflexivity|].
  change (String c3 x ++ Str.nl ++ y) with (String c3 (x ++ Str.nl ++ y)).
  now rewrite !prefix_one_cons.
Qed.

Lemma remove_fence_closing (body : string) :
  Str.includes "```" body = false ->
  Str.remove_all_from "```" O (body ++ Str.nl ++ "```") = body ++ Str.nl.
Proof.
  induction body as [|ch r IH]; [reflexivity|].
  rewrite includes_cons. intros H.
  apply orb_false_iff in H. destruct H as [Hp Hr].
  change (String ch r ++ Str.nl ++ "```")
    with (String ch (r ++ Str.nl ++ "```")).
  rewrite remove_all_from_keep.
  - now rewrite (IH Hr).
  - exact (prefix_fence_before_nl (String ch r) "```" Hp).
Qed.

Lemma includes_json_fence_closing (body : string) :
  Str.includes "```" body = false ->
  Str.includes "```json" (body ++ Str.nl ++ "```") = false.
Proof.
  induction body as [|ch r IH]; [reflexivity|].
  rewrite includes_cons. intros H.
  apply orb_false_iff in H. destruct H as [Hp Hr].
  change (String ch r ++ Str.nl ++ "```")
    with (String ch (r ++ Str.nl ++ "```")).
  rewrite includes_cons, (IH Hr), orb_false_r.
  destruct (String.prefix "```json" (String ch (r ++ Str.nl ++ "```")))
    eqn:Hj; [|reflexivity].
  pose proof (prefix_weaken "```" "json" _ Hj) as H3.
  pose proof (prefix_fence_before_nl (String ch r) "```" Hp) as H4.
  change (String ch r ++ Str.nl ++ "```")
    with (String ch (r ++ Str.nl ++ "```")) in H4.
  congruence.
Qed.

Lemma trimEnd_app_nl (u : string) :
  Str.trimEnd (u ++ Str.nl) = Str.trimEnd u.
Proof.
  induction u as [|ch u IH]; [reflexivity|].
  change (String ch u ++ Str.nl) with (String ch (u ++ Str.nl)).
  simpl Str.trimEnd. now rewrite IH.
Qed.

Lemma trimStart_app_nl (b : string) :
  Str.trimStart (b ++ Str.nl)
  = if all_space b then EmptyString else Str.trimStart b ++ Str.nl.
Proof.
  induction b as [|ch b IH]; [reflexivity|].
  change (String ch b ++ Str.nl) with (String ch (b ++ Str.nl)).
  simpl. destruct (Str.is_space ch); simpl; [exact IH | reflexivity].
Qed.

Lemma trim_app_nl (b : string) : Str.trim (b ++ Str.nl) = Str.trim b.
Proof.
  unfold Str.trim. rewrite trimStart_app_nl.
  destruct (all_space b) eqn:Hall.
  - symmetry. apply is_empty_eq.
    now rewrite trimEnd_all_space, all_space_trimStart.
  - apply trimEnd_app_nl.
Qed.

(** X20. An answer that wraps a body in a [json] code fence is cleaned to
    the trimmed body, when the body itself holds no run of three
    backticks. *)
Theorem cleanText_unwraps_fence (body : string) :
  Str.includes "```" body = false ->
  cleanText (fence body) = Str.trim body.
Proof.
  intros H. unfold cleanText, fence, Str.remove_all.
  assert (Hopen :
    Str.remove_all_from "```json" O
      ("```json" ++ Str.nl ++ body ++ Str.nl ++ "```")
    = Str.remove_all_from "```json" O (body ++ Str.nl ++ "```")).
  { reflexivity. }
  rewrite Hopen.
  rewrite (remove_all_from_absent "```json")
    by exact (includes_json_fence_closing body H).
  rewrite (remove_fence_closing body H).
  apply trim_app_nl.
Qed.

(** ** The endpoint and the client together *)

Section EndToEnd.

Variable JSON_parse : string -> option Js.value.

(** X21. A request whose transcript is present but whose [formData] is
    missing or [null] is answered with status 500, and no upstream call is
    made: the prompt cannot be built. *)
Theorem POST_without_draft (req : Request) (anthropic : Upstream)
  (v : Js.value) :
  req_json req = Some v ->
  v <> Js.Null -> v <> Js.Undefined ->
  Js.truthy (prop v "transcript") = true ->
  prop v "formData" = Js.Undefined \/ prop v "formData" = Js.Null ->
  POST JSON_parse req anthropic
  = (mkHttpResponse 500 (errorBody "Failed to process with AI"), []).
Proof.
  intros Hv Hn Hu Ht Hf. unfold POST, tryBlock.
  rewrite (readRequest_value req v Hv Hn Hu), Ht. simpl.
  assert (Hp : exists e,
             buildPrompt (prop v "transcript") (prop v "formData") = inl e).
  { unfold buildPrompt, Js.bind.
    destruct (Js.toString (prop v "transcript")); [eexists; reflexivity|].
    destruct Hf as [-> | ->]; eexists; reflexivity. }
  destruct Hp as [e ->]. reflexivity.
Qed.

Lemma blank_nonempty (t : string) :
  blank t = false -> Str.is_empty t = false.
Proof. destruct t; [discriminate | reflexivity]. Qed.

Lemma POST_client_request (rq : FetchRequest) (anthropic : Upstream) :
  Str.is_empty (rq_transcript rq) = false ->
  POST JSON_parse (requestOf rq) anthropic
  = (match afterCall JSON_parse
             (anthropic
                (createParams
                   (promptFor (rq_transcript rq) (rq_formData rq)))) with
     | inr response => response
     | inl _ => mkHttpResponse 500 (errorBody "Failed to process with AI")
     end,
     [createParams (promptFor (rq_transcript rq) (rq_formData rq))]).
Proof.
  intros Ht. unfold POST, tryBlock, requestOf, readRequest. simpl.
  rewrite Ht. simpl. rewrite buildPrompt_draft. reflexivity.
Qed.

(** X22. A request sent by the creation flow is never answered with status
    400, and the handler makes exactly one upstream call for it: the flow
    sends no blank transcript and a complete draft. *)
Theorem flow_request_reaches_model (st st1 : State) (rq : FetchRequest)
  (anthropic : Upstream) :
  processWithAI_begin st = Some (st1, rq) ->
  let answer := POST JSON_parse (requestOf rq) anthropic in
  status (fst answer) <> 400%Z /\
  length (snd answer) = 1%nat /\
  (status (fst answer) = 200%Z \/ status (fst answer) = 500%Z).
Proof.
  intros Hsent answer.
  pose proof (begin_sent_nonblank st st1 rq Hsent) as Hb.
  assert (Hrq : rq = mkFetchRequest (transcript st) (formData st)).
  { unfold processWithAI_begin in Hsent. rewrite Hb in Hsent.
    now injection Hsent as _ <-. }
  subst answer. rewrite POST_client_request
    by (rewrite Hrq; simpl; now apply blank_nonempty).
  simpl. split; [|split; [reflexivity|]].
  - destruct (afterCall JSON_parse _) as [e | response] eqn:Hafter;
      [discriminate|].
    unfold afterCall, Js.bind in Hafter.
    destruct (anthropic _); [discriminate|].
    destruct (findText _); simpl in Hafter; [|discriminate].
    destruct (JSON_parse _); simpl in Hafter; [|discriminate].
    injection Hafter as <-. discriminate.
  - destruct (afterCall JSON_parse _) as [e | response] eqn:Hafter;
      [now right|].
    unfold afterCall, Js.bind in Hafter.
    destruct (anthropic _); [discriminate|].
    destruct (findText _); simpl in Hafter; [|discriminate].
    destruct (JSON_parse _); simpl in Hafter; [|discriminate].
    injection Hafter as <-. now left.
Qed.

(** X23. End to end: when the handler fails to process the request of a
    flow (the upstream call throws, its message has no text, or the text is
    not JSON), the client receives the error response and the flow ends on
    the fallback path, with the fallback contact at the head of the
    list. *)
Theorem endpoint_failure_gives_fallback (st st1 : State) (rq : FetchRequest)
  (clk : Clock) (anthropic : Upstream) :
  processWithAI_begin st = Some (st1, rq) ->
  ProcessingFailure JSON_parse (requestOf rq) anthropic ->
  let out := deliverError (fst (POST JSON_parse (requestOf rq) anthropic)) in
  path_taken st clk out = FallbackPath /\
  contacts (processWithAI st clk out) = fallbackContact st clk :: contacts st.
Proof.
  intros Hsent Hfail out.
  pose proof (begin_sent_nonblank st st1 rq Hsent) as Hb.
  subst out. rewrite (POST_failure JSON_parse _ _ Hfail).
  unfold path_taken.
  rewrite (processWithAI_nonblank _ _ _ Hb).
  unfold processWithAI_resume, deliverError, extraction. simpl.
  split; reflexivity.
Qed.

End EndToEnd.

(** * The further properties at sample inputs *)

Lemma processWithAI_guard_witness :
  all_space (transcript initialState) = true /\
  processWithAI initialState Sample.clock FetchRejected = initialState.
Proof.
  split; [reflexivity|].
  destruct (processWithAI_guard initialState) as (_ & Hblank & _).
  destruct (Hblank eq_refl) as [_ Hsame]. apply Hsame.
Defined.

Lemma saveEffect_agrees_witness :
  hasWindow (mkStorage true (Some [Sample.ada])) = true /\
  loadFromStorage (saveEffect [] (mkStorage true (Some [Sample.ada]))) = [].
Proof.
  split; [reflexivity|].
  destruct (saveEffect_agrees [] (mkStorage true (Some [Sample.ada])))
    as [Hw _].
  exact (Hw eq_refl).
Defined.

Lemma create_then_delete_witness :
  blank Sample.notes = false /\
  ~ In (now Sample.clock) (map id (contacts Sample.state)) /\
  contacts (deleteContact (now Sample.clock)
              (create Sample.state
                 (mkCreation Sample.form Sample.notes None Sample.clock
                    FetchRejected)))
  = contacts Sample.state.
Proof.
  assert (Hfresh : ~ In (now Sample.clock) (map id (contacts Sample.state))).
  { intros []. }
  split; [reflexivity|]. split; [exact Hfresh|].
  exact (create_then_delete Sample.state
           (mkCreation Sample.form Sample.notes None Sample.clock
              FetchRejected) eq_refl Hfresh).
Defined.

Lemma createAll_distinct_ids_witness :
  Forall (fun cr => blank (cr_transcript cr) = false) Sample.creations /\
  NoDup (map (fun cr => now (cr_clock cr)) Sample.creations) /\
  NoDup (map id (contacts (createAll Sample.creations initialState))).
Proof.
  assert (Hall : Forall (fun cr => blank (cr_transcript cr) = false)
                   Sample.creations).
  { repeat constructor. }
  assert (Hnd : NoDup (map (fun cr => now (cr_clock cr)) Sample.creations)).
  { simpl. repeat constructor; simpl; intuition discriminate. }
  split; [exact Hall|]. split; [exact Hnd|].
  exact (createAll_distinct_ids Sample.creations Hall Hnd).
Defined.

Lemma detail_view_shows_listed_contact_witness :
  UiReachable
    (handle (SelectContact Sample.ada)
       (setContacts (fun _ => [Sample.eve; Sample.ada]) initialState)) /\
  exists c,
    currentContact
      (handle (SelectContact Sample.ada)
         (setContacts (fun _ => [Sample.eve; Sample.ada]) initialState))
    = Some c /\
    In c [Sample.eve; Sample.ada].
Proof.
  assert (Hreach : UiReachable
            (handle (SelectContact Sample.ada)
               (setContacts (fun _ => [Sample.eve; Sample.ada])
                  initialState))).
  { eapply UiNext; [apply UiLoaded|].
    apply UiHandle. simpl. auto. }
  split; [exact Hreach|].
  destruct (detail_view_shows_listed_contact _ Hreach) as [Hview _].
  exact (Hview eq_refl).
Defined.

Lemma onresult_appends_final_witness :
  forallb (fun r => negb (res_isFinal r)) (skipn 2 (firstn 3 Demo.results))
  = true /\
  onresult 2 (firstn 3 Demo.results) Sample.state = Sample.state /\
  finalTranscriptOf 1 Demo.results = "met ada at the booth ".
Proof.
  split; [reflexivity|].
  destruct (onresult_appends_final 2 (firstn 3 Demo.results) Sample.state)
    as (_ & _ & Hinterim).
  split; [exact (Hinterim eq_refl)|].
  now rewrite (proj1 (onresult_appends_final 1 Demo.results Sample.state)).
Defined.

Lemma clickMic_transcript_witness :
  speechSupported (speechEffect true initialRecorder) = true /\
  transcript
    (fst (clickMic true false
            (Sample.state, speechEffect true initialRecorder)))
  = EmptyString.
Proof.
  split; [reflexivity|].
  exact (clickMic_transcript true false Sample.state
           (speechEffect true initialRecorder) eq_refl).
Defined.

Lemma twoClicks_reachable : SpeechReachable true Demo.twoClicks.
Proof.
  unfold Demo.twoClicks.
  eapply SpeechNext; [eapply SpeechNext; [apply SpeechMounted|]|];
    apply StepMic.
Qed.

Lemma stop_never_reaches_started_witness :
  SpeechReachable true Demo.twoClicks /\
  calls (snd Demo.twoClicks) = [Stopped 1; Started 0] /\
  ~ In (Started 1) (calls (snd Demo.twoClicks)).
Proof.
  split; [exact twoClicks_reachable|]. split; [reflexivity|].
  apply (stop_never_reaches_started true Demo.twoClicks twoClicks_reachable 1).
  simpl. auto.
Defined.

Lemma onend_never_restarts_witness :
  SpeechReachable true Demo.twoClicks /\
  In (Started 0) (calls (snd Demo.twoClicks)) /\
  onend true true 0 Demo.twoClicks = Demo.twoClicks.
Proof.
  assert (Hin : In (Started 0) (calls (snd Demo.twoClicks))).
  { simpl. auto. }
  split; [exact twoClicks_reachable|]. split; [exact Hin|].
  exact (proj2 (onend_never_restarts true true 0 Demo.twoClicks
                  twoClicks_reachable Hin)).
Defined.

Lemma generateVCard_envelope_witness :
  exists text fields,
    generateVCard Sample.ada = inr text /\
    Str.split_lines text
    = ([ "BEGIN:VCARD"; "VERSION:3.0" ] ++ fields ++ [ "END:VCARD" ])%list /\
    (7 <= length fields)%nat.
Proof.
  eexists.
  destruct (generateVCard_envelope Sample.ada _ eq_refl) as (fields & H).
  exists fields. split; [reflexivity | exact H].
Defined.

Lemma downloadName_no_space_witness :
  name Demo.spaced = Js.Str "  Ada   Lovelace " /\
  exists base,
    downloadName Demo.spaced = inr (base ++ ".vcf") /\
    no_space (base ++ ".vcf") = true.
Proof.
  split; [reflexivity|].
  destruct (downloadName_no_space Demo.spaced _ eq_refl)
    as (base & Hname & Hns & _).
  exists base. split; assumption.
Defined.

Lemma numeric_name_blocks_download_witness :
  resp_ok (mkResponse 200 (Some Demo.numberedName)) = true /\
  exists e,
    downloadCard
      (createdContact Sample.state Sample.clock
         (FetchResolved (mkResponse 200 (Some Demo.numberedName))))
    = inl e.
Proof.
  split; [reflexivity|].
  pose proof (numeric_name_blocks_download Sample.state Sample.clock
                (mkResponse 200 (Some Demo.numberedName)) _
                (Js.mkNumber true "42") eq_refl eq_refl eq_refl eq_refl) as H.
  cbv zeta in H. exact (proj2 H).
Defined.

Lemma cleanText_plain_witness :
  Str.includes "```" "  {}  " = false /\ cleanText "  {}  " = "{}".
Proof.
  split; [reflexivity|].
  now rewrite (cleanText_plain "  {}  " eq_refl).
Defined.

Lemma cleanText_unwraps_fence_witness :
  Str.includes "```" "{ }" = false /\ cleanText (fence "{ }") = "{ }".
Proof.
  split; [reflexivity|].
  now rewrite (cleanText_unwraps_fence "{ }" eq_refl).
Defined.

Lemma POST_without_draft_witness :
  POST (fun _ => None)
    (mkRequest (Some (Js.Obj [("transcript", Js.Str "Met Ada.")])))
    (Sample.answering "{}")
  = (mkHttpResponse 500 (errorBody "Failed to process with AI"), []).
Proof.
  apply (POST_without_draft (fun _ => None) _ _
           (Js.Obj [("transcript", Js.Str "Met Ada.")]));
    first [reflexivity | discriminate | now left].
Defined.

Lemma flow_request_reaches_model_witness :
  processWithAI_begin Sample.state
  = Some (setIsProcessing true Sample.state,
          mkFetchRequest Sample.notes Sample.form) /\
  status (fst (POST (fun _ => None) Sample.request Sample.offline)) <> 400%Z.
Proof.
  split; [reflexivity|].
  pose proof (flow_request_reaches_model (fun _ => None) Sample.state _ _
                Sample.offline eq_refl) as H.
  cbv zeta in H. exact (proj1 H).
Defined.

Lemma endpoint_failure_gives_fallback_witness :
  ProcessingFailure (fun _ => None) Sample.request Sample.offline /\
  contacts
    (processWithAI Sample.state Sample.clock
       (deliverError (fst (POST (fun _ => None) Sample.request
                             Sample.offline))))
  = [fallbackContact Sample.state Sample.clock].
Proof.
  assert (Hfail : ProcessingFailure (fun _ => None) Sample.request
                    Sample.offline).
  { eapply UpstreamError; reflexivity. }
  split; [exact Hfail|].
  pose proof (endpoint_failure_gives_fallback (fun _ => None) Sample.state
                _ _ Sample.clock Sample.offline eq_refl Hfail) as H.
  cbv zeta in H. exact (proj2 H).
Defined.

(** * The answers of the endpoint *)

Lemma falsy_iff (v : Js.value) : Falsy v <-> Js.truthy v = false.
Proof.
  split.
  - intros [-> | [-> | [-> | [-> | (n & -> & Hn)]]]]; try reflexivity.
    exact Hn.
  - destruct v as [| |b|n|s|items|props]; simpl; intros H.
    + now left.
    + right; now left.
    + subst b. right; right; now left.
    + right; right; right; right. now exists n.
    + destruct s; [|discriminate]. right; right; right; now left.
    + discriminate.
    + discriminate.
Qed.

Lemma find_firstText (blocks : list Block) (b : Block) :
  find (fun x => String.eqb (block_type x) "text") blocks = Some b <->
  FirstText blocks b.
Proof.
  split.
  - induction blocks as [|x rest IH]; simpl; [discriminate|].
    destruct (String.eqb_spec (block_type x) "text") as [Heq | Hne].
    + intros H. injection H as <-. now apply FirstHere.
    + intros H. apply FirstAfter; [exact Hne | now apply IH].
  - induction 1 as [b rest Ht | x rest b Hx _ IH]; simpl.
    + now rewrite Ht.
    + apply String.eqb_neq in Hx. now rewrite Hx.
Qed.

Lemma find_noText (blocks : list Block) :
  find (fun x => String.eqb (block_type x) "text") blocks = None <->
  NoText blocks.
Proof.
  unfold NoText. induction blocks as [|x rest IH]; simpl.
  - split; [constructor | reflexivity].
  - destruct (String.eqb_spec (block_type x) "text") as [Heq | Hne].
    + split; [discriminate|]. intros H. inversion H; subst. contradiction.
    + rewrite IH. split.
      * intros H. now constructor.
      * intros H. now inversion H.
Qed.

Lemma length_append (a b : string) :
  String.length (a ++ b) = (String.length a + String.length b)%nat.
Proof. induction a as [|c a IH]; simpl; [reflexivity | now rewrite IH]. Qed.

Lemma drop_append (a b : string) : Str.drop (String.length a) (a ++ b) = b.
Proof. induction a as [|c a IH]; simpl; [now destruct b | exact IH]. Qed.

Lemma prefix_split (m s : string) :
  String.prefix m s = true -> s = m ++ Str.drop (String.length m) s.
Proof.
  revert s. induction m as [|a m IH]; intros s H.
  - now destruct s.
  - destruct s as [|c r]; [discriminate|].
    rewrite prefix_cons in H. apply andb_true_iff in H.
    destruct H as [Hc Hr]. apply Ascii.eqb_eq in Hc. subst c.
    simpl. f_equal. now apply IH.
Qed.

Lemma remove_all_from_skip (marker p x : string) (k : nat) :
  Str.remove_all_from marker (String.length p + k) (p ++ x)
  = Str.remove_all_from marker k x.
Proof. induction p as [|c p IH]; [reflexivity | exact IH]. Qed.

(** At an occurrence of the marker, the removal goes on after the marker
    and one line feed. *)
Lemma remove_all_from_marker (a : ascii) (p rest : string) :
  Str.remove_all_from (String a p) O (String a p ++ rest)
  = Str.remove_all_from (String a p) O (afterLineFeed rest).
Proof.
  pose proof (prefix_append (String a p) rest) as Hp.
  change (String a p ++ rest) with (String a (p ++ rest)) in *.
  change (Str.remove_all_from (String a p) O (String a (p ++ rest)))
    with (if String.prefix (String a p) (String a (p ++ rest))
          then Str.remove_all_from (String a p)
                 (String.length p
                  + (if Str.starts_with_nl
                          (Str.drop (String.length p) (p ++ rest))
                     then 1 else 0))%nat (p ++ rest)
          else String a (Str.remove_all_from (String a p) O (p ++ rest))).
  rewrite Hp, drop_append, remove_all_from_skip.
  destruct rest as [|c r]; [reflexivity|].
  simpl. destruct (Ascii.eqb c "010"); reflexivity.
Qed.

Lemma stripped_removes (a : ascii) (p s out : string) :
  Stripped (String a p) s out -> out = Str.remove_all (String a p) s.
Proof.
  unfold Str.remove_all.
  induction 1 as [ | rest out _ IH | c r out Hp _ IH].
  - reflexivity.
  - now rewrite remove_all_from_marker.
  - rewrite remove_all_from_keep by exact Hp. now rewrite IH.
Qed.

Lemma afterLineFeed_length (s : string) :
  (String.length (afterLineFeed s) <= String.length s)%nat.
Proof.
  destruct s as [|c r]; simpl; [lia|].
  destruct (Ascii.eqb c "010"); simpl; lia.
Qed.

Lemma removes_stripped (a : ascii) (p s : string) :
  Stripped (String a p) s (Str.remove_all (String a p) s).
Proof.
  unfold Str.remove_all.
  remember (String.length s) as n eqn:Hn.
  assert (Hle : (String.length s <= n)%nat) by lia. clear Hn.
  revert s Hle. induction n as [|n IH]; intros s Hle.
  - destruct s; [apply StrippedEnd | simpl in Hle; lia].
  - destruct s as [|c r]; [apply StrippedEnd|].
    destruct (String.prefix (String a p) (String c r)) eqn:Hp.
    + pose proof (prefix_split _ _ Hp) as Hs.
      set (rest := Str.drop (String.length (String a p)) (String c r)) in *.
      assert (Hlen : (String.length (afterLineFeed rest) <= n)%nat).
      { pose proof (afterLineFeed_length rest).
        apply (f_equal String.length) in Hs.
        rewrite length_append in Hs. simpl in Hs, Hle. lia. }
      rewrite Hs, remove_all_from_marker.
      apply StrippedMarker. now apply IH.
    + rewrite remove_all_from_keep by exact Hp.
      apply StrippedKeep; [exact Hp|]. apply IH. simpl in Hle. lia.
Qed.

Lemma cleanedTo_iff (text out : string) :
  CleanedTo text out <-> out = cleanText text.
Proof.
  unfold CleanedTo, cleanText. split.
  - intros (a & b & Ha & Hb & ->).
    apply stripped_removes in Ha. subst a.
    apply stripped_removes in Hb. now subst b.
  - intros ->. eexists. eexists.
    split; [apply removes_stripped|]. split; [apply removes_stripped|].
    reflexivity.
Qed.

Lemma hintLine_value (label : string) (f : Js.value) (k : string) :
  f <> Js.Null -> f <> Js.Undefined ->
  hintLine label f k
  = if Js.truthy (prop f k)
    then match Js.toString (prop f k) with
         | inl e => inl e
         | inr s => inr (label ++ s)
         end
    else inr EmptyString.
Proof.
  intros Hn Hu. unfold hintLine. rewrite (get_prop f k Hu Hn).
  unfold Js.bind, Js.ret. destruct (Js.truthy (prop f k)); [|reflexivity].
  now destruct (Js.toString (prop f k)).
Qed.

Lemma hintLine_written (label : string) (f : Js.value) (k : string) :
  f <> Js.Null -> f <> Js.Undefined ->
  (exists h, hintLine label f k = inr h) <-> Hintable f k.
Proof.
  intros Hn Hu. rewrite (hintLine_value label f k Hn Hu). unfold Hintable.
  destruct (Js.truthy (prop f k)) eqn:Ht.
  - destruct (Js.toString (prop f k)) as [e | s] eqn:Hs; split.
    + intros [h H]. discriminate H.
    + intros [Hf | [s Hs']].
      * apply falsy_iff in Hf. congruence.
      * unfold Stringable in *. congruence.
    + intros _. right. now exists s.
    + intros _. eauto.
  - split; [|eauto]. intros _. left. now apply falsy_iff.
Qed.

Lemma hintLine_nullish (label : string) (f : Js.value) (k : string) :
  f = Js.Null \/ f = Js.Undefined -> exists e, hintLine label f k = inl e.
Proof. intros [-> | ->]; eexists; reflexivity. Qed.

Lemma buildPrompt_written (t f : Js.value) :
  (exists prompt, buildPrompt t f = inr prompt) <-> PromptWritable t f.
Proof.
  unfold PromptWritable, Stringable.
  assert (Hcases : (f = Js.Null \/ f = Js.Undefined)
                   \/ (f <> Js.Null /\ f <> Js.Undefined)).
  { destruct f; auto; right; split; discriminate. }
  unfold buildPrompt, Js.bind.
  destruct (Js.toString t) as [e | s].
  { split; [intros [x H]; discriminate H|].
    intros ([x H] & _). discriminate H. }
  destruct Hcases as [Hnull | [Hn Hu]].
  { destruct (hintLine_nullish "Name provided: " f "name" Hnull) as [e ->].
    split; [intros [x H]; discriminate H|].
    intros (_ & Hn & Hu & _). destruct Hnull; contradiction. }
  pose proof (hintLine_written "Name provided: " f "name" Hn Hu) as H1.
  pose proof (hintLine_written "Company provided: " f "company" Hn Hu) as H2.
  pose proof (hintLine_written "Role provided: " f "role" Hn Hu) as H3.
  pose proof (hintLine_written "Meeting context: " f "meetingContext" Hn Hu)
    as H4.
  destruct (hintLine "Name provided: " f "name") as [e1 | h1].
  { split; [intros [x H]; discriminate H|].
    intros (_ & _ & _ & Hh & _). apply H1 in Hh.
    destruct Hh as [h Hh]. discriminate Hh. }
  destruct (hintLine "Company provided: " f "company") as [e2 | h2].
  { split; [intros [x H]; discriminate H|].
    intros (_ & _ & _ & _ & Hh & _). apply H2 in Hh.
    destruct Hh as [h Hh]. discriminate Hh. }
  destruct (hintLine "Role provided: " f "role") as [e3 | h3].
  { split; [intros [x H]; discriminate H|].
    intros (_ & _ & _ & _ & _ & Hh & _). apply H3 in Hh.
    destruct Hh as [h Hh]. discriminate Hh. }
  destruct (hintLine "Meeting context: " f "meetingContext") as [e4 | h4].
  { split; [intros [x H]; discriminate H|].
    intros (_ & _ & _ & _ & _ & _ & Hh). apply H4 in Hh.
    destruct Hh as [h Hh]. discriminate Hh. }
  split; [|eauto]. intros _.
  split; [eauto|]. split; [exact Hn|]. split; [exact Hu|].
  split; [apply H1; eauto|]. split; [apply H2; eauto|].
  split; [apply H3; eauto | apply H4; eauto].
Qed.

Section EndpointAnswersFacts.

Variable JSON_parse : string -> option Js.value.

Lemma afterCall_noText (m : Message) :
  NoText (content m) -> exists e, afterCall JSON_parse (inr m) = inl e.
Proof.
  intros H. apply find_noText in H. unfold afterCall, findText. simpl.
  rewrite H. eexists; reflexivity.
Qed.

Lemma afterCall_text (m : Message) (b : Block) (out : string) :
  FirstText (content m) b -> CleanedTo (block_text b) out ->
  afterCall JSON_parse (inr m)
  = match JSON_parse out with
    | Some parsed => inr (mkHttpResponse 200 parsed)
    | None => inl (Js.SyntaxError "Unexpected token")
    end.
Proof.
  intros Hb Hout. apply find_firstText in Hb. apply cleanedTo_iff in Hout.
  subst out. unfold afterCall, findText. simpl. rewrite Hb. simpl.
  now destruct (JSON_parse (cleanText (block_text b))).
Qed.

Lemma text_or_none (m : Message) :
  NoText (content m) \/ exists b, FirstText (content m) b.
Proof.
  destruct (find (fun x => String.eqb (block_type x) "text") (content m))
    as [b|] eqn:Hf.
  - right. exists b. now apply find_firstText.
  - left. now apply find_noText.
Qed.

(** Where a call was made, the answer is decided by what the call gave. *)
Lemma POST_called (req : Request) (anthropic : Upstream) (p : CreateParams) :
  snd (POST JSON_parse req anthropic) = [p] ->
  fst (POST JSON_parse req anthropic)
  = match afterCall JSON_parse (anthropic p) with
    | inr response => response
    | inl _ =>
        mkHttpResponse 500
          (Js.Obj [("error", Js.Str "Failed to process with AI")])
    end.
Proof.
  unfold POST, tryBlock.
  destruct (readRequest req) as [e | [t f]]; simpl; [discriminate|].
  destruct (Js.truthy t); simpl; [|discriminate].
  destruct (buildPrompt t f) as [e | prompt]; simpl; [discriminate|].
  intros H. injection H as <-. reflexivity.
Qed.

Lemma POST_notProvided (req : Request) (anthropic : Upstream) :
  transcriptNotProvided req ->
  POST JSON_parse req anthropic
  = (mkHttpResponse 400
       (Js.Obj [("error", Js.Str "No transcript provided")]), []).
Proof.
  intros (v & (Hv & Hn & Hu) & Hfalsy). apply falsy_iff in Hfalsy.
  unfold POST, tryBlock.
  rewrite (readRequest_value req v Hv Hn Hu), Hfalsy. reflexivity.
Qed.

Lemma POST_handlerFailure (req : Request) (anthropic : Upstream) :
  HandlerFailure JSON_parse req anthropic
    (snd (POST JSON_parse req anthropic)) ->
  fst (POST JSON_parse req anthropic)
  = mkHttpResponse 500
      (Js.Obj [("error", Js.Str "Failed to process with AI")]).
Proof.
  intros [Hnone | v Hv Hnull | v (Hv & Hn & Hu) Ht Hw | p e Hc Hup
         | p m Hc Hup Hno | p m b out Hc Hup Hb Hout Hparse].
  - unfold POST, tryBlock.
    destruct (readRequest_unreadable req Hnone) as [e ->]. reflexivity.
  - unfold POST, tryBlock.
    destruct (readRequest_null req v Hv Hnull) as [e ->]. reflexivity.
  - unfold POST, tryBlock. rewrite (readRequest_value req v Hv Hn Hu).
    destruct (Js.truthy (prop v "transcript")) eqn:Htr.
    2:{ elim Ht. now apply falsy_iff. }
    simpl.
    destruct (buildPrompt (prop v "transcript") (prop v "formData"))
      as [e | prompt] eqn:Hp; [reflexivity|].
    elim Hw. apply buildPrompt_written. eauto.
  - rewrite (POST_called req anthropic p Hc), Hup. reflexivity.
  - rewrite (POST_called req anthropic p Hc), Hup.
    destruct (afterCall_noText m Hno) as [e ->]. reflexivity.
  - rewrite (POST_called req anthropic p Hc), Hup.
    rewrite (afterCall_text m b out Hb Hout), Hparse. reflexivity.
Qed.

(** Every request falls in one of the three cases. *)
Lemma POST_classified (req : Request) (anthropic : Upstream) :
  transcriptNotProvided req
  \/ HandlerFailure JSON_parse req anthropic
       (snd (POST JSON_parse req anthropic))
  \/ exists parsed,
       HandlerSuccess JSON_parse anthropic
         (snd (POST JSON_parse req anthropic)) parsed /\
       fst (POST JSON_parse req anthropic) = mkHttpResponse 200 parsed.
Proof.
  destruct (req_json req) as [v|] eqn:Hv.
  2:{ right; left. now apply FailUnreadable. }
  assert (Hcases : (v = Js.Null \/ v = Js.Undefined)
                   \/ (v <> Js.Null /\ v <> Js.Undefined)).
  { destruct v; auto; right; split; discriminate. }
  destruct Hcases as [Hnull | [Hn Hu]].
  { right; left. now apply (FailNullBody _ _ _ _ v). }
  assert (Hread : bodyRead req v) by (repeat split; assumption).
  destruct (Js.truthy (prop v "transcript")) eqn:Ht.
  2:{ left. exists v. split; [exact Hread | now apply falsy_iff]. }
  assert (Hnf : ~ Falsy (prop v "transcript")).
  { intros Hf. apply falsy_iff in Hf. congruence. }
  right.
  destruct (buildPrompt (prop v "transcript") (prop v "formData"))
    as [e | prompt] eqn:Hp.
  { left. apply (FailPrompt _ _ _ _ v Hread Hnf).
    intros Hw. apply buildPrompt_written in Hw.
    destruct Hw as [x Hx]. congruence. }
  assert (Hpost : POST JSON_parse req anthropic
                  = (match afterCall JSON_parse
                             (anthropic (createParams prompt)) with
                     | inr response => response
                     | inl _ =>
                         mkHttpResponse 500
                           (errorBody "Failed to process with AI")
                     end, [createParams prompt])).
  { unfold POST, tryBlock.
    rewrite (readRequest_value req v Hv Hn Hu), Ht. simpl.
    now rewrite Hp. }
  rewrite Hpost. simpl.
  destruct (anthropic (createParams prompt)) as [e | m] eqn:Hup.
  { left. now apply (FailUpstream _ _ _ _ (createParams prompt) e). }
  destruct (text_or_none m) as [Hno | [b Hb]].
  { left. now apply (FailNoText _ _ _ _ (createParams prompt) m). }
  pose proof (proj2 (cleanedTo_iff (block_text b) _) eq_refl) as Hout.
  rewrite (afterCall_text m b _ Hb Hout).
  destruct (JSON_parse (cleanText (block_text b))) as [parsed|] eqn:Hparse.
  - right. exists parsed. split; [|reflexivity].
    exists (createParams prompt), m, b, (cleanText (block_text b)).
    auto 10.
  - left.
    now apply (FailParse _ _ _ _ (createParams prompt) m b
                 (cleanText (block_text b))).
Qed.

(** C8, amended. The handler answers with status 400 and the error object
    of the missing transcript when and only when the body of the request
    was read, is not [null], and its transcript is absent or falsy; it then
    makes no upstream call. It answers with status 500 and the error object
    of the failure on every processing failure: a body that cannot be read
    or is [null], a prompt that cannot be written, a call that throws, a
    message without text, a cleaned text that is not JSON. In every other
    case it has made one upstream call and answers, with status 200, the
    value parsed from the cleaned first text of the message. *)
Theorem POST_responses (req : Request) (anthropic : Upstream) :
  let response := fst (POST JSON_parse req anthropic) in
  let calls := snd (POST JSON_parse req anthropic) in
  (status response = 400%Z <-> transcriptNotProvided req) /\
  (transcriptNotProvided req ->
     response
     = mkHttpResponse 400
         (Js.Obj [("error", Js.Str "No transcript provided")]) /\
     calls = []) /\
  (HandlerFailure JSON_parse req anthropic calls ->
     response
     = mkHttpResponse 500
         (Js.Obj [("error", Js.Str "Failed to process with AI")])) /\
  (transcriptNotProvided req
   \/ HandlerFailure JSON_parse req anthropic calls
   \/ exists parsed,
        HandlerSuccess JSON_parse anthropic calls parsed /\
        response = mkHttpResponse 200 parsed) /\
  (length calls <= 1)%nat.
Proof.
  intros response calls. subst response calls.
  split; [|split; [|split; [|split; [|apply POST_calls]]]].
  - split.
    + intros Hst.
      destruct (POST_classified req anthropic)
        as [Hm | [Hf | (parsed & _ & Hok)]].
      * exact Hm.
      * rewrite (POST_handlerFailure req anthropic Hf) in Hst.
        discriminate Hst.
      * rewrite Hok in Hst. discriminate Hst.
    + intros Hm. now rewrite (POST_notProvided req anthropic Hm).
  - intros Hm. now rewrite (POST_notProvided req anthropic Hm).
  - apply POST_handlerFailure.
  - apply POST_classified.
Qed.

End EndpointAnswersFacts.

Lemma POST_responses_witness :
  transcriptNotProvided Sample.noTranscript /\
  fst (POST (fun _ => None) Sample.noTranscript Sample.offline)
  = mkHttpResponse 400 (Js.Obj [("error", Js.Str "No transcript provided")]) /\
  snd (POST (fun _ => None) Sample.noTranscript Sample.offline) = [].
Proof.
  assert (Hm : transcriptNotProvided Sample.noTranscript).
  { eexists. split.
    - split; [reflexivity|]. split; discriminate.
    - now left. }
  split; [exact Hm|].
  pose proof (POST_responses (fun _ => None) Sample.noTranscript
                Sample.offline) as H.
  cbv zeta in H. destruct H as (_ & Hmissing & _).
  exact (Hmissing Hm).
Defined.

(** C8, as stated, fails both ways. A request whose body is the JSON text
    [null], or cannot be read at all, holds no transcript, and is answered
    with status 500; a request whose transcript is the number zero holds a
    transcript, and is answered with status 400. *)
Lemma POST_missing_transcript_counterexample :
  (transcriptAbsent Bodies.nullBody /\
   status (fst (POST (fun _ => None) Bodies.nullBody Sample.offline))
   = 500%Z) /\
  (transcriptAbsent Bodies.unreadable /\
   status (fst (POST (fun _ => None) Bodies.unreadable Sample.offline))
   = 500%Z) /\
  (~ transcriptAbsent Bodies.zeroTranscript /\
   status (fst (POST (fun _ => None) Bodies.zeroTranscript Sample.offline))
   = 400%Z).
Proof.
  split; [|split]; split; try reflexivity.
  - intros v H. injection H as <-. reflexivity.
  - intros v H. discriminate H.
  - intros H. specialize (H _ eq_refl). discriminate H.
Qed.
